(** * VMTracer: the streaming builder of message traces

    A shallow embedding of
    [packages/buidler-core/src/internal/buidler-evm/stack-traces/vm-tracer.ts].

    The tracer keeps an array [_messageTraces] of the frames that are open,
    innermost last.  A frame is a JavaScript object: the same object is
    referenced from the array and from its parent's [steps], and it is
    mutated through the array after it has been pushed into the parent.
    The embedding therefore has an object store ([heap]) and references
    ([ref]) into it; [steps] and [_messageTraces] hold references. *)

From Stdlib Require Import ZArith Lia.
From Stdlib.Strings Require Import String Byte.
From stdpp Require Import base list.

Local Open Scope Z_scope.

(** ** Data *)

Definition Buffer := list byte.

(** [new BN(buffer)]: the bytes read as a big-endian unsigned integer. *)
Definition BN (b : Buffer) : Z :=
  fold_left (fun acc x => 256 * acc + Z.of_N (Byte.to_N x)) b 0.

(** The execution error of the VM ([execResult.exceptionError]). *)
Definition VmError := string.

(** Errors that a handler can raise. *)
Inductive Error :=
| JsError (message : string)   (* [new Error(message)] *)
| TypeError.                   (* the runtime's error on a property access of [undefined] *)

Definition msg_message_in_precompile : string :=
  "This should not happen: message execution started while a precompile was executing".

Definition msg_step_in_precompile : string :=
  "This should not happen: step event fired while a precompile was executing".

Definition msg_tracer_disabled : string :=
  "You can't get a vm trace if the VMTracer is disabled".

Definition msg_no_message : string :=
  "You can't get a vm trace if no message was executed yet".

(** The two errors that name a violated invariant of the tracer. *)
Definition is_invariant_diagnostic (e : Error) : bool :=
  match e with
  | JsError m =>
      orb (String.eqb m msg_message_in_precompile)
          (String.eqb m msg_step_in_precompile)
  | TypeError => false
  end.

(** A reference to a trace object. *)
Definition ref := nat.

(** Modelled from the spec: the declarations of [./message-trace] (the
    types [MessageTrace], [CreateMessageTrace], [CallMessageTrace],
    [PrecompileMessageTrace], [MessageTraceStep] and the guards
    [isPrecompileTrace], [isCreateTrace]) are not among the sources.  The
    fields are the ones of the object literals of the tracer, with the
    optional [error] of every variant. *)
Inductive MessageTraceStep :=
| EvmStep (pc : nat)
| SubTrace (r : ref).

Record CreateMessageTrace := mkCreate {
  create_code : Buffer;
  create_steps : list MessageTraceStep;
  create_value : Z;
  create_returnData : Buffer;
  create_numberOfSubtraces : nat;
  create_depth : nat;
  create_deployedContract : option Buffer;
  create_error : option VmError
}.

Record CallMessageTrace := mkCall {
  call_code : Buffer;
  call_calldata : Buffer;
  call_steps : list MessageTraceStep;
  call_value : Z;
  call_returnData : Buffer;
  call_address : Buffer;
  call_numberOfSubtraces : nat;
  call_depth : nat;
  call_error : option VmError
}.

Record PrecompileMessageTrace := mkPrecompile {
  precompile : Z;
  precompile_calldata : Buffer;
  precompile_value : Z;
  precompile_returnData : Buffer;
  precompile_depth : nat;
  precompile_error : option VmError
}.

Inductive MessageTrace :=
| Create (t : CreateMessageTrace)
| Call (t : CallMessageTrace)
| Precompile (t : PrecompileMessageTrace).

(** Modelled from the spec: the type guards of [./message-trace]. *)
Definition isPrecompileTrace (trace : MessageTrace) : bool :=
  match trace with Precompile _ => true | _ => false end.

Definition isCreateTrace (trace : MessageTrace) : bool :=
  match trace with Create _ => true | _ => false end.

(** Readers shared by the variants. *)
Definition returnData (trace : MessageTrace) : Buffer :=
  match trace with
  | Create t => create_returnData t
  | Call t => call_returnData t
  | Precompile t => precompile_returnData t
  end.

Definition error (trace : MessageTrace) : option VmError :=
  match trace with
  | Create t => create_error t
  | Call t => call_error t
  | Precompile t => precompile_error t
  end.

Definition depth_of (trace : MessageTrace) : nat :=
  match trace with
  | Create t => create_depth t
  | Call t => call_depth t
  | Precompile t => precompile_depth t
  end.

(** [steps] and [numberOfSubtraces] exist on [Create] and [Call] only. *)
Definition steps (trace : MessageTrace) : option (list MessageTraceStep) :=
  match trace with
  | Create t => Some (create_steps t)
  | Call t => Some (call_steps t)
  | Precompile _ => None
  end.

Definition numberOfSubtraces (trace : MessageTrace) : option nat :=
  match trace with
  | Create t => Some (create_numberOfSubtraces t)
  | Call t => Some (call_numberOfSubtraces t)
  | Precompile _ => None
  end.

(** ** Mutations of a trace object *)

(** [trace.steps.push(x)].  A precompile has no [steps]: the push would
    dereference [undefined]. *)
Definition steps_push (x : MessageTraceStep) (trace : MessageTrace)
  : Error + MessageTrace :=
  match trace with
  | Create t =>
      inr (Create (mkCreate (create_code t) (create_steps t ++ [x])
                     (create_value t) (create_returnData t)
                     (create_numberOfSubtraces t) (create_depth t)
                     (create_deployedContract t) (create_error t)))
  | Call t =>
      inr (Call (mkCall (call_code t) (call_calldata t) (call_steps t ++ [x])
                   (call_value t) (call_returnData t) (call_address t)
                   (call_numberOfSubtraces t) (call_depth t) (call_error t)))
  | Precompile _ => inl TypeError
  end.

(** [trace.numberOfSubtraces += 1].  Only reached after [steps.push] has
    succeeded, hence never on a precompile. *)
Definition numberOfSubtraces_incr (trace : MessageTrace)
  : Error + MessageTrace :=
  match trace with
  | Create t =>
      inr (Create (mkCreate (create_code t) (create_steps t)
                     (create_value t) (create_returnData t)
                     (S (create_numberOfSubtraces t)) (create_depth t)
                     (create_deployedContract t) (create_error t)))
  | Call t =>
      inr (Call (mkCall (call_code t) (call_calldata t) (call_steps t)
                   (call_value t) (call_returnData t) (call_address t)
                   (S (call_numberOfSubtraces t)) (call_depth t)
                   (call_error t)))
  | Precompile t => inr (Precompile t)
  end.

(** [trace.error = e]. *)
Definition set_error (e : option VmError) (trace : MessageTrace)
  : Error + MessageTrace :=
  inr match trace with
      | Create t =>
          Create (mkCreate (create_code t) (create_steps t) (create_value t)
                    (create_returnData t) (create_numberOfSubtraces t)
                    (create_depth t) (create_deployedContract t) e)
      | Call t =>
          Call (mkCall (call_code t) (call_calldata t) (call_steps t)
                  (call_value t) (call_returnData t) (call_address t)
                  (call_numberOfSubtraces t) (call_depth t) e)
      | Precompile t =>
          Precompile (mkPrecompile (precompile t) (precompile_calldata t)
                        (precompile_value t) (precompile_returnData t)
                        (precompile_depth t) e)
      end.

(** [trace.returnData = d]. *)
Definition set_returnData (d : Buffer) (trace : MessageTrace)
  : Error + MessageTrace :=
  inr match trace with
      | Create t =>
          Create (mkCreate (create_code t) (create_steps t) (create_value t)
                    d (create_numberOfSubtraces t) (create_depth t)
                    (create_deployedContract t) (create_error t))
      | Call t =>
          Call (mkCall (call_code t) (call_calldata t) (call_steps t)
                  (call_value t) d (call_address t)
                  (call_numberOfSubtraces t) (call_depth t) (call_error t))
      | Precompile t =>
          Precompile (mkPrecompile (precompile t) (precompile_calldata t)
                        (precompile_value t) d (precompile_depth t)
                        (precompile_error t))
      end.

(** [trace.deployedContract = a], executed under [isCreateTrace(trace)]. *)
Definition set_deployedContract (a : option Buffer) (trace : MessageTrace)
  : Error + MessageTrace :=
  inr match trace with
      | Create t =>
          Create (mkCreate (create_code t) (create_steps t) (create_value t)
                    (create_returnData t) (create_numberOfSubtraces t)
                    (create_depth t) a (create_error t))
      | other => other
      end.

(** ** The inputs of the handlers *)

Record Message := mkMessage {
  to : option Buffer;
  data : Buffer;
  value : Z;
  depth : nat;
  _codeAddress : option Buffer
}.

Record InterpreterStep := mkStep { pc : nat }.

Record ExecResult := mkExecResult {
  exceptionError : option VmError;
  returnValue : Buffer
}.

Record EVMResult := mkResult {
  execResult : ExecResult;
  createdAddress : option Buffer
}.

Definition DUMMY_RETURN_DATA : Buffer := [].

(** ** The tracer *)

Record VMTracer := mkTracer {
  _messageTraces : list ref;
  _enabled : bool;
  _dontThrowErrors : bool;
  _lastError : option Error;
  heap : list MessageTrace
}.

(** What a handler did with its continuation [next] and with the error
    reporter: [next_arg] is the argument given to [next] ([None] for
    [next()]), [reported] the error sent to [ErrorReporter], if any. *)
Record Reply := mkReply {
  next_arg : option Error;
  reported : option Error
}.

Definition acknowledged : Reply := mkReply None None.

Definition with_messageTraces (l : list ref) (s : VMTracer) : VMTracer :=
  mkTracer l (_enabled s) (_dontThrowErrors s) (_lastError s) (heap s).

Definition with_enabled (b : bool) (s : VMTracer) : VMTracer :=
  mkTracer (_messageTraces s) b (_dontThrowErrors s) (_lastError s) (heap s).

Definition with_lastError (e : option Error) (s : VMTracer) : VMTracer :=
  mkTracer (_messageTraces s) (_enabled s) (_dontThrowErrors s) e (heap s).

Definition with_heap (h : list MessageTrace) (s : VMTracer) : VMTracer :=
  mkTracer (_messageTraces s) (_enabled s) (_dontThrowErrors s)
    (_lastError s) h.

(** [new VMTracer(vm, dontThrowErrors)]. *)
Definition new_VMTracer (dontThrowErrors : bool) : VMTracer :=
  mkTracer [] false dontThrowErrors None [].

(** ** The body of a [try] block: state and exceptions

    A computation changes the tracer and either returns or throws; what
    it changed before it threw stays changed. *)
Definition M (A : Type) : Type := VMTracer -> VMTracer * (Error + A).

Definition ret {A} (a : A) : M A := fun s => (s, inr a).

Definition throw {A} (e : Error) : M A := fun s => (s, inl e).

Definition bind {A B} (m : M A) (k : A -> M B) : M B :=
  fun s => match m s with
           | (s', inr a) => k a s'
           | (s', inl e) => (s', inl e)
           end.

Notation "x <- m ;; k" := (bind m (fun x => k))
  (at level 90, m at level 80, right associativity).
Notation "m ;;; k" := (bind m (fun _ => k))
  (at level 90, right associativity).

Definition gets {A} (f : VMTracer -> A) : M A := fun s => (s, inr (f s)).

Definition modify (f : VMTracer -> VMTracer) : M unit :=
  fun s => (f s, inr tt).

(** The value of an expression that may throw. *)
Definition lift {A} (x : Error + A) : M A :=
  match x with inl e => throw e | inr a => ret a end.

(** An object literal: a fresh object in the store. *)
Definition new (trace : MessageTrace) : M ref :=
  fun s => (with_heap (heap s ++ [trace]) s, inr (length (heap s))).

(** The object behind a value read from [_messageTraces]; [None] is
    [undefined] (the array was empty). Using [undefined] as an object
    throws. *)
Definition deref (r : option ref) : M MessageTrace :=
  fun s => match r with
           | Some r =>
               match heap s !! r with
               | Some trace => (s, inr trace)
               | None => (s, inl TypeError)
               end
           | None => (s, inl TypeError)
           end.

(** An assignment to, or a method call on, a property of the object. *)
Definition mutate (r : option ref)
    (f : MessageTrace -> Error + MessageTrace) : M unit :=
  trace <- deref r ;;
  trace' <- lift (f trace) ;;
  match r with
  | Some r => modify (fun s => with_heap (<[r := trace']> (heap s)) s)
  | None => ret tt
  end.

(** [this._messageTraces[this._messageTraces.length - 1]]. *)
Definition innermost (s : VMTracer) : option ref := last (_messageTraces s).

(** ** Queries *)

Definition enabled (s : VMTracer) : bool := _enabled s.

Definition getLastTopLevelMessageTrace (s : VMTracer) : Error + ref :=
  if negb (_enabled s) then inl (JsError msg_tracer_disabled)
  else match _messageTraces s with
       | [] => inl (JsError msg_no_message)
       | root :: _ => inr root
       end.

Definition getLastError (s : VMTracer) : option Error := _lastError s.

Definition clearLastError (s : VMTracer) : VMTracer := with_lastError None s.

(** [enableTracing] and [disableTracing], as far as the tracer's own
    state goes: the flag.  The registration of the three handlers with
    the VM ([vm.on], [vm.removeListener]) belongs to the emitter and is
    not in the embedding; the events of [handle] and [run] are the
    events that the handlers receive, which they do once each after
    [enableTracing] has been called once. *)
Definition enableTracing (s : VMTracer) : VMTracer := with_enabled true s.

Definition disableTracing (s : VMTracer) : VMTracer := with_enabled false s.

Definition _shouldKeepTracing (s : VMTracer) : bool :=
  negb (_dontThrowErrors s) || match _lastError s with None => true | Some _ => false end.

(** The [catch] block shared by the three handlers: the error is sent to
    the reporter; it is then kept as the last error and the continuation
    called without it, or given to the continuation. *)
Definition try_catch (body : M unit) (s : VMTracer) : VMTracer * Reply :=
  match body s with
  | (s', inr _) => (s', acknowledged)
  | (s', inl e) =>
      if _dontThrowErrors s'
      then (with_lastError (Some e) s', mkReply None (Some e))
      else (s', mkReply (Some e) (Some e))
  end.

(** Unfolds the operations of [M]. *)
Ltac unfold_try :=
  try unfold mutate in *;
  try unfold lift in *;
  unfold bind, gets, modify, ret, throw, deref, new in *.

(** ** The handlers *)

Inductive Event :=
| BeforeMessage (message : Message)
| Step (step : InterpreterStep)
| AfterMessage (result : EVMResult).

(** What the tracer uses of the VM library: the size of its table of
    precompiled contracts, [Object.keys(precompiles).length], and the
    promisified [stateManager.getContractCode] of the instance, which
    gives the buffer the promise resolves to or the error it is rejected
    with (thrown at the [await]). *)
Record VM := mkVM {
  precompiles_length : nat;
  _getContractCode : Buffer -> Error + Buffer
}.

Definition MAX_PRECOMPILE_NUMBER (vm : VM) : Z := Z.of_nat (precompiles_length vm) + 1.

(** The object built for a message: lines 103-149. *)
Definition new_trace (vm : VM) (message : Message) : M ref :=
  match to message with
  | None =>
      new (Create (mkCreate (data message) [] (value message)
                     DUMMY_RETURN_DATA 0 (depth message) None None))
  | Some message_to =>
      let toAsBn := BN message_to in
      if (0 <? toAsBn) && (toAsBn <=? (MAX_PRECOMPILE_NUMBER vm)) then
        new (Precompile (mkPrecompile toAsBn (data message) (value message)
                           DUMMY_RETURN_DATA (depth message) None))
      else
        let codeAddress :=
          match _codeAddress message with
          | Some a => a
          | None => message_to
          end in
        code <- lift (_getContractCode vm codeAddress) ;;
        new (Call (mkCall code (data message) [] (value message)
                     DUMMY_RETURN_DATA message_to 0 (depth message) None))
  end.

(** The [try] block of [_beforeMessageHandler]. *)
Definition beforeMessage_try (vm : VM) (message : Message) : M unit :=
  (if Nat.eqb (depth message) 0
   then modify (with_messageTraces [])
   else ret tt) ;;;
  trace <- new_trace vm message ;;
  len <- gets (fun s => length (_messageTraces s)) ;;
  (if Nat.ltb 0 len then
     parentTrace <- gets innermost ;;
     parent <- deref parentTrace ;;
     if isPrecompileTrace parent
     then throw (JsError msg_message_in_precompile)
     else
       mutate parentTrace (steps_push (SubTrace trace)) ;;;
       mutate parentTrace numberOfSubtraces_incr
   else ret tt) ;;;
  modify (fun s => with_messageTraces (_messageTraces s ++ [trace]) s).

Definition _beforeMessageHandler (vm : VM) (message : Message) (s : VMTracer)
  : VMTracer * Reply :=
  if negb (_shouldKeepTracing s) then (s, acknowledged)
  else try_catch (beforeMessage_try vm message) s.

(** The [try] block of [_stepHandler]. *)
Definition step_try (step : InterpreterStep) : M unit :=
  trace <- gets innermost ;;
  frame <- deref trace ;;
  if isPrecompileTrace frame
  then throw (JsError msg_step_in_precompile)
  else mutate trace (steps_push (EvmStep (pc step))).

Definition _stepHandler (step : InterpreterStep) (s : VMTracer)
  : VMTracer * Reply :=
  if negb (_shouldKeepTracing s) then (s, acknowledged)
  else try_catch (step_try step) s.

(** The [try] block of [_afterMessageHandler]. *)
Definition afterMessage_try (result : EVMResult) : M unit :=
  trace <- gets innermost ;;
  mutate trace (set_error (exceptionError (execResult result))) ;;;
  mutate trace (set_returnData (returnValue (execResult result))) ;;;
  frame <- deref trace ;;
  (if isCreateTrace frame
   then mutate trace (set_deployedContract (createdAddress result))
   else ret tt) ;;;
  len <- gets (fun s => length (_messageTraces s)) ;;
  if Nat.ltb 1 len
  then modify (fun s => with_messageTraces (removelast (_messageTraces s)) s)
  else ret tt.

Definition _afterMessageHandler (result : EVMResult) (s : VMTracer)
  : VMTracer * Reply :=
  if negb (_shouldKeepTracing s) then (s, acknowledged)
  else try_catch (afterMessage_try result) s.

(** The VM emits an event to the attached handler. *)
Definition handle (vm : VM) (ev : Event) (s : VMTracer) : VMTracer * Reply :=
  match ev with
  | BeforeMessage message => _beforeMessageHandler vm message s
  | Step step => _stepHandler step s
  | AfterMessage result => _afterMessageHandler result s
  end.

(** A sequence of events, each handled before the next is emitted. *)
Fixpoint run (vm : VM) (evs : list Event) (s : VMTracer) : VMTracer * list Reply :=
  match evs with
  | [] => (s, [])
  | ev :: evs' =>
      let '(s1, r) := handle vm ev s in
      let '(s2, rs) := run vm evs' s1 in
      (s2, r :: rs)
  end.

Definition exec (vm : VM) (evs : list Event) (s : VMTracer) : VMTracer :=
  fst (run vm evs s).

Definition replies (vm : VM) (evs : list Event) (s : VMTracer) : list Reply :=
  snd (run vm evs s).

(** ** Well-formed event sequences

  [well_nested k evs]: from [k] open messages, every [beforeMessage]
  has the depth of the number of messages open, every [step] and
  [afterMessage] has an open message; the result is the number of
  messages open at the end. *)
Fixpoint well_nested (k : nat) (evs : list Event) : option nat :=
match evs with
| [] => Some k
| BeforeMessage message :: evs' =>
    if Nat.eqb (depth message) k then well_nested (S k) evs' else None
| Step _ :: evs' =>
    match k with O => None | S _ => well_nested k evs' end
| AfterMessage _ :: evs' =>
    match k with O => None | S k' => well_nested k' evs' end
end.

(** Complete top-level messages, one after the other. *)
Definition well_formed (evs : list Event) : Prop := well_nested 0 evs = Some 0%nat.

(** The frames of the tree under a frame: the frame and, through the
  sub-traces of the [steps], their frames. *)
Inductive in_tree (h : list MessageTrace) : ref -> ref -> Prop :=
| in_tree_root r : in_tree h r r
| in_tree_child r p trace l c :
  in_tree h r p ->
  h !! p = Some trace ->
  steps trace = Some l ->
  SubTrace c ∈ l ->
  in_tree h r c.

Definition is_subtrace (x : MessageTraceStep) : bool :=
match x with SubTrace _ => true | EvmStep _ => false end.

(** The number of [MessageTrace] entries of a [steps]. *)
Definition count_subtraces (l : list MessageTraceStep) : nat :=
length (filter (fun x => is_subtrace x = true) l).

(** [numberOfSubtraces] is the number of sub-traces of [steps]; nothing is
  asked of a precompile, which has neither. *)
Definition subtraces_counted (trace : MessageTrace) : Prop :=
match trace with
| Create t => create_numberOfSubtraces t = count_subtraces (create_steps t)
| Call t => call_numberOfSubtraces t = count_subtraces (call_steps t)
| Precompile _ => True
end.

(** The frame after the assignments of [_afterMessageHandler]. *)
Definition completed (result : EVMResult) (trace : MessageTrace) : MessageTrace :=
match trace with
| Create t =>
    Create (mkCreate (create_code t) (create_steps t) (create_value t)
              (returnValue (execResult result)) (create_numberOfSubtraces t)
              (create_depth t) (createdAddress result)
              (exceptionError (execResult result)))
| Call t =>
    Call (mkCall (call_code t) (call_calldata t) (call_steps t)
            (call_value t) (returnValue (execResult result)) (call_address t)
            (call_numberOfSubtraces t) (call_depth t)
            (exceptionError (execResult result)))
| Precompile t =>
    Precompile (mkPrecompile (precompile t) (precompile_calldata t)
                  (precompile_value t) (returnValue (execResult result))
                  (precompile_depth t) (exceptionError (execResult result)))
end.

(** The parent after a child has been attached. *)
Definition with_child (c : ref) (trace : MessageTrace) : MessageTrace :=
match trace with
| Create t =>
    Create (mkCreate (create_code t) (create_steps t ++ [SubTrace c])
              (create_value t) (create_returnData t)
              (S (create_numberOfSubtraces t)) (create_depth t)
              (create_deployedContract t) (create_error t))
| Call t =>
    Call (mkCall (call_code t) (call_calldata t)
            (call_steps t ++ [SubTrace c]) (call_value t)
            (call_returnData t) (call_address t)
            (S (call_numberOfSubtraces t)) (call_depth t) (call_error t))
| Precompile t => Precompile t
end.

(** The frame after a step has been recorded. *)
Definition with_step (n : nat) (trace : MessageTrace) : MessageTrace :=
match steps_push (EvmStep n) trace with
| inr trace' => trace'
| inl _ => trace
end.

(** The object that [new_trace] builds, as a value. *)
Definition trace_of_message (vm : VM) (message : Message) : Error + MessageTrace :=
  match to message with
  | None =>
      inr (Create (mkCreate (data message) [] (value message)
                     DUMMY_RETURN_DATA 0 (depth message) None None))
  | Some message_to =>
      if (0 <? BN message_to) && (BN message_to <=? (MAX_PRECOMPILE_NUMBER vm)) then
        inr (Precompile (mkPrecompile (BN message_to) (data message)
                           (value message) DUMMY_RETURN_DATA
                           (depth message) None))
      else
        match _getContractCode vm
                (match _codeAddress message with
                 | Some a => a
                 | None => message_to
                 end) with
        | inl e => inl e
        | inr code =>
            inr (Call (mkCall code (data message) [] (value message)
                         DUMMY_RETURN_DATA message_to 0 (depth message)
                         None))
        end
  end.

(** The tracer after the test of line 99. *)
Definition top_reset (message : Message) (s : VMTracer) : VMTracer :=
  if Nat.eqb (depth message) 0 then with_messageTraces [] s else s.

(** The [try] block of the handler of an event. *)
Definition try_of (vm : VM) (ev : Event) : M unit :=
  match ev with
  | BeforeMessage message => beforeMessage_try vm message
  | Step step => step_try step
  | AfterMessage result => afterMessage_try result
  end.

(** What [catch] does with a [TypeError]. *)
Definition caught_type_error (s : VMTracer) : VMTracer * Reply :=
  if _dontThrowErrors s
  then (with_lastError (Some TypeError) s, mkReply None (Some TypeError))
  else (s, mkReply (Some TypeError) (Some TypeError)).

(** Every open frame is an object of the store. *)
Definition refs_allocated (s : VMTracer) : Prop :=
  Forall (fun r => (r < length (heap s))%nat) (_messageTraces s).

(** Every object of the store has counted its sub-traces. *)
Definition heap_counted (s : VMTracer) : Prop :=
  Forall subtraces_counted (heap s).

(** Every sub-trace of a [steps] is an object of the store. *)
Definition steps_below (n : nat) (trace : MessageTrace) : Prop :=
  forall l c, steps trace = Some l -> SubTrace c ∈ l -> (c < n)%nat.

Definition heap_closed (s : VMTracer) : Prop :=
  Forall (steps_below (length (heap s))) (heap s).

(** [k] messages are open: the list holds their [k] frames; when none
    is open it holds at most the root of the last message. *)
Definition open_frames (k : nat) (s : VMTracer) : Prop :=
  _lastError s = None /\
  match k with
  | O => (length (_messageTraces s) <= 1)%nat
  | S _ => length (_messageTraces s) = k
  end.

(** ** What stays of a frame *)

(** The part of a frame that is set when the frame is built: the variant
    and the fields that no handler assigns afterwards. *)
Definition blank (trace : MessageTrace) : MessageTrace :=
  match trace with
  | Create t =>
      Create (mkCreate (create_code t) [] (create_value t) [] 0
                (create_depth t) None None)
  | Call t =>
      Call (mkCall (call_code t) (call_calldata t) [] (call_value t) []
              (call_address t) 0 (call_depth t) None)
  | Precompile t =>
      Precompile (mkPrecompile (precompile t) (precompile_calldata t)
                    (precompile_value t) [] (precompile_depth t) None)
  end.

(** What one handler does to one object. *)
Inductive mutation (trace : MessageTrace) : MessageTrace -> Prop :=
| mutation_none : mutation trace trace
| mutation_child c :
    isPrecompileTrace trace = false -> mutation trace (with_child c trace)
| mutation_step n :
    isPrecompileTrace trace = false -> mutation trace (with_step n trace)
| mutation_completed result : mutation trace (completed result trace).

(** ** Depths and the shape of the store *)

(** The open frame at position [i] of the list has depth [i]. *)
Definition depth_indexed (s : VMTracer) : Prop :=
  forall (i : nat) (r : ref),
    _messageTraces s !! i = Some r ->
    exists trace, heap s !! r = Some trace /\ depth_of trace = i.

(** Every sub-trace is one level deeper than the frame that holds it. *)
Definition child_depths (h : list MessageTrace) : Prop :=
  forall (p c : ref) parent l,
    h !! p = Some parent -> steps parent = Some l -> SubTrace c ∈ l ->
    exists child, h !! c = Some child /\ depth_of child = S (depth_of parent).

(** Every sub-trace was built after the frame that holds it. *)
Definition children_later (h : list MessageTrace) : Prop :=
  forall (p c : ref) parent l,
    h !! p = Some parent -> steps parent = Some l -> SubTrace c ∈ l ->
    (p < c)%nat.

(** The references of the sub-traces of a [steps], and of a frame. *)
Definition subtrace_refs (l : list MessageTraceStep) : list ref :=
  omap (fun x => match x with SubTrace c => Some c | EvmStep _ => None end) l.

Definition child_refs (trace : MessageTrace) : list ref :=
  match steps trace with
  | Some l => subtrace_refs l
  | None => []
  end.

(** The references of all the sub-traces of the store, parent by
    parent. *)
Definition all_child_refs (h : list MessageTrace) : list ref :=
  concat (map child_refs h).

(** The frame with more steps at the end of its [steps]. *)
Definition with_steps (l : list MessageTraceStep) (trace : MessageTrace)
  : MessageTrace :=
  match trace with
  | Create t =>
      Create (mkCreate (create_code t) (create_steps t ++ l) (create_value t)
                (create_returnData t) (create_numberOfSubtraces t)
                (create_depth t) (create_deployedContract t) (create_error t))
  | Call t =>
      Call (mkCall (call_code t) (call_calldata t) (call_steps t ++ l)
              (call_value t) (call_returnData t) (call_address t)
              (call_numberOfSubtraces t) (call_depth t) (call_error t))
  | Precompile t => Precompile t
  end.

(** ** Traces as trees, and the same trace elsewhere in the store *)

(** A frame without the references of its [steps]. *)
Definition erase_steps (trace : MessageTrace) : MessageTrace :=
  match trace with
  | Create t =>
      Create (mkCreate (create_code t) [] (create_value t)
                (create_returnData t) (create_numberOfSubtraces t)
                (create_depth t) (create_deployedContract t) (create_error t))
  | Call t =>
      Call (mkCall (call_code t) (call_calldata t) [] (call_value t)
              (call_returnData t) (call_address t)
              (call_numberOfSubtraces t) (call_depth t) (call_error t))
  | Precompile t => Precompile t
  end.

(** A trace read out of the store: the frame and, in the order of its
    [steps], the program counters of its steps and the trees of its
    sub-traces. *)
Inductive TraceTree :=
| TraceNode (frame : MessageTrace) (children : list (nat + TraceTree)).

Fixpoint collect {A} (sub : ref -> option A) (l : list MessageTraceStep)
  : option (list (nat + A)) :=
  match l with
  | [] => Some []
  | EvmStep n :: l' => option_map (cons (inl n)) (collect sub l')
  | SubTrace c :: l' =>
      match sub c, collect sub l' with
      | Some tree, Some rest => Some (inr tree :: rest)
      | _, _ => None
      end
  end.

(** The tree under the object [r], followed to at most [fuel] levels. *)
Fixpoint reify (fuel : nat) (h : list MessageTrace) (r : ref)
  : option TraceTree :=
  match fuel with
  | O => None
  | S fuel' =>
      match h !! r with
      | None => None
      | Some trace =>
          match steps trace with
          | None => Some (TraceNode (erase_steps trace) [])
          | Some l =>
              option_map (TraceNode (erase_steps trace))
                (collect (reify fuel' h) l)
          end
      end
  end.

(** The tree of the root of the list of traces. *)
Definition top_level_tree (fuel : nat) (s : VMTracer) : option TraceTree :=
  match _messageTraces s with
  | [] => None
  | root :: _ => reify fuel (heap s) root
  end.

(** A frame whose sub-traces are [n] objects further in the store. *)
Definition shift_step (n : nat) (x : MessageTraceStep) : MessageTraceStep :=
  match x with
  | EvmStep k => EvmStep k
  | SubTrace c => SubTrace (n + c)%nat
  end.

Definition shift (n : nat) (trace : MessageTrace) : MessageTrace :=
  match trace with
  | Create t =>
      Create (mkCreate (create_code t) (shift_step n <$> create_steps t)
                (create_value t) (create_returnData t)
                (create_numberOfSubtraces t) (create_depth t)
                (create_deployedContract t) (create_error t))
  | Call t =>
      Call (mkCall (call_code t) (call_calldata t)
              (shift_step n <$> call_steps t) (call_value t)
              (call_returnData t) (call_address t)
              (call_numberOfSubtraces t) (call_depth t) (call_error t))
  | Precompile t => Precompile t
  end.

(** The tracer [s] with its objects placed after the objects [pre], and
    the flag [e]. *)
Definition relocate (pre : list MessageTrace) (e : bool) (s : VMTracer)
  : VMTracer :=
  mkTracer (Nat.add (length pre) <$> _messageTraces s) e
    (_dontThrowErrors s) (_lastError s)
    (pre ++ (shift (length pre) <$> heap s)).

(** ** Sequences of events that raise no error *)

(** The target of the message is in the range of the precompiles (the
    test of line 118). *)
Definition is_precompile_target (vm : VM) (message : Message) : bool :=
  match to message with
  | Some target =>
      (0 <? BN target) && (BN target <=? MAX_PRECOMPILE_NUMBER vm)
  | None => false
  end.

(** The frame of the message can be built: the message is not a call, or
    the lookup of its code succeeds. *)
Definition code_can_be_fetched (vm : VM) (message : Message) : bool :=
  match to message with
  | None => true
  | Some target =>
      if (0 <? BN target) && (BN target <=? MAX_PRECOMPILE_NUMBER vm)
      then true
      else
        match _getContractCode vm
                (match _codeAddress message with
                 | Some a => a
                 | None => target
                 end) with
        | inr _ => true
        | inl _ => false
        end
  end.

(** No step and no message inside a precompile (the message of a
    precompile is closed at once), and the code of every call is found;
    [in_precompile] tells whether the last message opened is a
    precompile that is still open. *)
Fixpoint undisturbed (vm : VM) (in_precompile : bool) (evs : list Event)
  : bool :=
  match evs with
  | [] => true
  | BeforeMessage message :: evs' =>
      negb in_precompile && code_can_be_fetched vm message &&
      undisturbed vm (is_precompile_target vm message) evs'
  | Step _ :: evs' => negb in_precompile && undisturbed vm false evs'
  | AfterMessage _ :: evs' => undisturbed vm false evs'
  end.

(** Of the open frames only the innermost can be a precompile, and only
    when [b] says so. *)
Definition leaf_precompiles (b : bool) (s : VMTracer) : Prop :=
  forall (i : nat) (r : ref),
    _messageTraces s !! i = Some r ->
    exists trace,
      heap s !! r = Some trace /\
      (isPrecompileTrace trace = true ->
       S i = length (_messageTraces s) /\ b = true).

(** ** Concrete runs *)

(** A state manager that has code for every address, and one whose lookup
    fails. *)
Definition code_found (address : Buffer) : Error + Buffer :=
  inr [Byte.x60; Byte.x00].

Definition lookup_failure : Error := JsError "state manager: lookup failed".

Definition code_missing (address : Buffer) : Error + Buffer :=
  inl lookup_failure.

(** A VM with eight precompiled contracts, addresses 1 to 8. *)
Definition vm8 : VM := mkVM 8 code_found.

Definition vm8_no_code : VM := mkVM 8 code_missing.

Definition call_to (target : Buffer) (d : nat) : Message :=
  mkMessage (Some target) [] 0 d None.

Definition creation (initcode : Buffer) (d : nat) : Message :=
  mkMessage None initcode 0 d None.

Definition returned (bytes : Buffer) : EVMResult :=
  mkResult (mkExecResult None bytes) None.

Definition created (address : Buffer) : EVMResult :=
  mkResult (mkExecResult None []) (Some address).

Definition strict_tracer : VMTracer := enableTracing (new_VMTracer false).

Definition tolerant_tracer : VMTracer := enableTracing (new_VMTracer true).

(** A call with two steps and no nested message. *)
Definition plain_call : list Event :=
  [BeforeMessage (call_to [Byte.xaa] 0); Step (mkStep 0); Step (mkStep 3);
   AfterMessage (returned [Byte.x6f; Byte.x6b])].

(** A call that calls the precompile 1. *)
Definition call_with_precompile : list Event :=
  [BeforeMessage (call_to [Byte.xaa] 0); BeforeMessage (call_to [Byte.x01] 1);
   AfterMessage (returned [Byte.x2a]); AfterMessage (returned [])].

(** A creation that succeeds. *)
Definition successful_creation : list Event :=
  [BeforeMessage (creation [Byte.x60] 0); AfterMessage (created [Byte.xbb])].

(** A step while a precompile is open. *)
Definition step_in_precompile : list Event :=
  [BeforeMessage (call_to [Byte.xaa] 0); BeforeMessage (call_to [Byte.x01] 1);
   Step (mkStep 0)].

(** The error-tolerant tracer after that step. *)
Definition frozen_tracer : VMTracer :=
  exec vm8 step_in_precompile tolerant_tracer.

(** A precompile open at the top level. *)
Definition in_precompile : VMTracer :=
  exec vm8 [BeforeMessage (call_to [Byte.x01] 0)] strict_tracer.

(** A creation open inside a call. *)
Definition in_creation : VMTracer :=
  exec vm8
    [BeforeMessage (call_to [Byte.xaa] 0);
     BeforeMessage (creation [Byte.x60] 1)]
    strict_tracer.

(** The tracer after a complete call. *)
Definition after_plain_call : VMTracer := exec vm8 plain_call strict_tracer.


(** Two top-level messages, the second a call that calls the precompile
    1 and records a step. *)
Definition second_message : Message := call_to [Byte.xcc] 0.

Definition rest_of_second_message : list Event :=
  [Step (mkStep 0); BeforeMessage (call_to [Byte.x01] 1);
   AfterMessage (returned [Byte.x2a]); Step (mkStep 7);
   AfterMessage (returned [Byte.x6f])].

(** Events of which three raise in strict mode: a step and a message in
    a precompile, the lookup of the message failing, and an
    [afterMessage] too many. *)
Definition three_faults : list Event :=
  [BeforeMessage (call_to [Byte.x01] 0); Step (mkStep 0);
   BeforeMessage (call_to [Byte.xaa] 1); AfterMessage (returned []);
   AfterMessage (returned [])].

(** The precompile of [call_with_precompile], closed, its parent open. *)
Definition precompile_closed : VMTracer :=
  exec vm8 (take 3 call_with_precompile) strict_tracer.

(** A call open at the top level. *)
Definition in_call : VMTracer :=
  exec vm8 [BeforeMessage (call_to [Byte.xaa] 0)] strict_tracer.

(** The 20-byte address of the precompile 1. *)
Definition precompile_1_address : Buffer := replicate 19 Byte.x00 ++ [Byte.x01].

(** * Properties *)

Section Facts.

Variable vm : VM.

(** ** The trace tree *)

(** ** What the handlers compute *)

Lemma new_trace_eq message s :
  new_trace vm message s =
  match trace_of_message vm message with
  | inl e => (s, inl e)
  | inr trace => (with_heap (heap s ++ [trace]) s, inr (length (heap s)))
  end.
Proof.
  unfold new_trace, trace_of_message.
  destruct (to message) as [a|]; [|reflexivity].
  destruct ((0 <? BN a) && (BN a <=? (MAX_PRECOMPILE_NUMBER vm))); [reflexivity|].
  unfold_try.
  destruct (_getContractCode vm _); reflexivity.
Qed.

(** *** [step] *)

Lemma step_try_empty step s :
  innermost s = None -> step_try step s = (s, inl TypeError).
Proof. intros H. unfold step_try. unfold_try. rewrite H. reflexivity. Qed.

Lemma step_try_precompile step s r t :
  innermost s = Some r -> heap s !! r = Some (Precompile t) ->
  step_try step s = (s, inl (JsError msg_step_in_precompile)).
Proof.
  intros H1 H2. unfold step_try. unfold_try. rewrite H1, H2. reflexivity.
Qed.

Lemma step_try_push step s r trace :
  innermost s = Some r -> heap s !! r = Some trace ->
  isPrecompileTrace trace = false ->
  step_try step s =
    (with_heap (<[r := with_step (pc step) trace]> (heap s)) s, inr tt).
Proof.
  intros H1 H2 H3. unfold step_try. unfold_try. rewrite H1, H2, H3.
  unfold with_step.
  destruct trace; simpl in *; try discriminate; rewrite ?H2; reflexivity.
Qed.

(** *** [afterMessage] *)

Lemma afterMessage_try_empty result s :
  innermost s = None -> afterMessage_try result s = (s, inl TypeError).
Proof.
  intros H. unfold afterMessage_try. unfold_try. rewrite H. reflexivity.
Qed.

Lemma afterMessage_try_frame result s r trace :
  innermost s = Some r -> heap s !! r = Some trace ->
  afterMessage_try result s =
    (with_messageTraces
       (if Nat.ltb 1 (length (_messageTraces s))
        then removelast (_messageTraces s) else _messageTraces s)
       (with_heap (<[r := completed result trace]> (heap s)) s),
     inr tt).
Proof.
  intros H1 H2. pose proof (lookup_lt_Some _ _ _ H2) as Hlt.
  unfold afterMessage_try. unfold_try. rewrite H1, H2. simpl.
  rewrite list_lookup_insert_eq by exact Hlt. simpl.
  rewrite list_insert_insert_eq.
  rewrite list_lookup_insert_eq by exact Hlt.
  destruct trace; simpl;
    rewrite ?list_lookup_insert_eq by exact Hlt; simpl;
    rewrite ?list_insert_insert_eq;
    destruct (Nat.ltb 1 (length (_messageTraces s))); reflexivity.
Qed.

(** *** [beforeMessage] *)

Lemma beforeMessage_try_rejected message s e :
  trace_of_message vm message = inl e ->
  beforeMessage_try vm message s = (top_reset message s, inl e).
Proof.
  intros H. unfold beforeMessage_try, top_reset.
  unfold bind at 1 2.
  destruct (Nat.eqb (depth message) 0); unfold modify, ret;
    rewrite new_trace_eq, H; reflexivity.
Qed.

Lemma beforeMessage_try_root message s trace :
  trace_of_message vm message = inr trace ->
  _messageTraces (top_reset message s) = [] ->
  beforeMessage_try vm message s =
    (with_messageTraces [length (heap s)]
       (with_heap (heap s ++ [trace]) (top_reset message s)), inr tt).
Proof.
  intros H H0. unfold beforeMessage_try.
  unfold bind at 1 2. fold (top_reset message s).
  assert (E : (if Nat.eqb (depth message) 0
               then modify (with_messageTraces []) else ret tt) s
              = (top_reset message s, inr tt)).
  { unfold top_reset. destruct (Nat.eqb (depth message) 0); reflexivity. }
  rewrite E, new_trace_eq, H.
  assert (Hh : heap (top_reset message s) = heap s).
  { unfold top_reset. destruct (Nat.eqb (depth message) 0); reflexivity. }
  rewrite Hh. unfold_try. simpl. rewrite H0. simpl. rewrite H0.
  reflexivity.
Qed.

Lemma top_reset_heap message s : heap (top_reset message s) = heap s.
Proof. unfold top_reset. destruct (Nat.eqb (depth message) 0); reflexivity. Qed.

Lemma beforeMessage_try_start message s :
  beforeMessage_try vm message s =
  match trace_of_message vm message with
  | inl e => (top_reset message s, inl e)
  | inr trace =>
      let s1 := with_heap (heap s ++ [trace]) (top_reset message s) in
      match innermost s1 with
      | None =>
          (with_messageTraces [length (heap s)] s1, inr tt)
      | Some p =>
          match (heap s ++ [trace]) !! p with
          | None => (s1, inl TypeError)
          | Some parent =>
              if isPrecompileTrace parent
              then (s1, inl (JsError msg_message_in_precompile))
              else
                (with_messageTraces
                   (_messageTraces s1 ++ [length (heap s)])
                   (with_heap
                      (<[p := with_child (length (heap s)) parent]>
                         (heap s ++ [trace])) s1), inr tt)
          end
      end
  end.
Proof.
  destruct (trace_of_message vm message) as [e|trace] eqn:H.
  { apply beforeMessage_try_rejected, H. }
  cbv zeta.
  destruct (innermost _) as [p|] eqn:Hp.
  2:{ apply last_None in Hp. simpl in Hp.
      apply beforeMessage_try_root; assumption. }
  unfold beforeMessage_try.
  unfold bind at 1 2.
  assert (E : (if Nat.eqb (depth message) 0
               then modify (with_messageTraces []) else ret tt) s
              = (top_reset message s, inr tt)).
  { unfold top_reset. destruct (Nat.eqb (depth message) 0); reflexivity. }
  rewrite E, new_trace_eq, H, top_reset_heap.
  unfold innermost in Hp. simpl in Hp.
  assert (Hlen : Nat.ltb 0 (length (_messageTraces (top_reset message s))) = true).
  { destruct (_messageTraces (top_reset message s)); [discriminate|reflexivity]. }
  unfold_try. unfold innermost. simpl. rewrite Hlen. simpl.
  rewrite Hp.
  destruct ((heap s ++ [trace]) !! p) as [parent|] eqn:Hh; [|reflexivity].
  pose proof (lookup_lt_Some _ _ _ Hh) as Hlt.
  destruct parent; simpl; try reflexivity;
    rewrite ?Hp; simpl; rewrite ?Hh; simpl;
    rewrite ?Hp; simpl;
    rewrite list_lookup_insert_eq by exact Hlt; simpl;
    rewrite ?Hp; simpl; rewrite list_insert_insert_eq; reflexivity.
Qed.

(** *** The three [try] blocks, case by case *)

Lemma step_try_eq step s :
  step_try step s =
  match innermost s with
  | None => (s, inl TypeError)
  | Some r =>
      match heap s !! r with
      | None => (s, inl TypeError)
      | Some trace =>
          if isPrecompileTrace trace
          then (s, inl (JsError msg_step_in_precompile))
          else (with_heap (<[r := with_step (pc step) trace]> (heap s)) s,
                inr tt)
      end
  end.
Proof.
  destruct (innermost s) as [r|] eqn:Hr.
  2:{ apply step_try_empty, Hr. }
  destruct (heap s !! r) as [trace|] eqn:Hh.
  - destruct (isPrecompileTrace trace) eqn:Hp.
    + destruct trace; try discriminate.
      eapply step_try_precompile; eassumption.
    + apply step_try_push; assumption.
  - unfold step_try. unfold_try. rewrite Hr, Hh. reflexivity.
Qed.

Lemma afterMessage_try_eq result s :
  afterMessage_try result s =
  match innermost s with
  | None => (s, inl TypeError)
  | Some r =>
      match heap s !! r with
      | None => (s, inl TypeError)
      | Some trace =>
          (with_messageTraces
             (if Nat.ltb 1 (length (_messageTraces s))
              then removelast (_messageTraces s) else _messageTraces s)
             (with_heap (<[r := completed result trace]> (heap s)) s),
           inr tt)
      end
  end.
Proof.
  destruct (innermost s) as [r|] eqn:Hr.
  2:{ apply afterMessage_try_empty, Hr. }
  destruct (heap s !! r) as [trace|] eqn:Hh.
  - apply afterMessage_try_frame; assumption.
  - unfold afterMessage_try. unfold_try. rewrite Hr, Hh. reflexivity.
Qed.

(** *** The handlers, when tracing goes on and when it does not *)

Lemma keep_tracing_strict s :
  _dontThrowErrors s = false -> _shouldKeepTracing s = true.
Proof. unfold _shouldKeepTracing. intros ->. reflexivity. Qed.

Lemma keep_tracing_no_error s :
  _lastError s = None -> _shouldKeepTracing s = true.
Proof.
  unfold _shouldKeepTracing. intros ->.
  destruct (_dontThrowErrors s); reflexivity.
Qed.

Lemma stop_tracing s e :
  _dontThrowErrors s = true -> _lastError s = Some e ->
  _shouldKeepTracing s = false.
Proof. unfold _shouldKeepTracing. intros -> ->. reflexivity. Qed.

Lemma handle_frozen ev s :
  _shouldKeepTracing s = false -> handle vm ev s = (s, acknowledged).
Proof.
  intros H.
  destruct ev; simpl;
    unfold _beforeMessageHandler, _stepHandler, _afterMessageHandler;
    rewrite H; reflexivity.
Qed.

Lemma run_frozen evs s :
  _shouldKeepTracing s = false ->
  run vm evs s = (s, replicate (length evs) acknowledged).
Proof.
  intros H. induction evs as [|ev evs IH]; simpl; [reflexivity|].
  rewrite (handle_frozen ev s H), IH. reflexivity.
Qed.

Lemma run_app evs1 evs2 s :
  run vm (evs1 ++ evs2) s =
  (fst (run vm evs2 (fst (run vm evs1 s))),
   snd (run vm evs1 s) ++ snd (run vm evs2 (fst (run vm evs1 s)))).
Proof.
  revert s. induction evs1 as [|ev evs1 IH]; intros s; simpl.
  - destruct (run vm evs2 s); reflexivity.
  - destruct (handle vm ev s) as [s1 r]. rewrite IH.
    destruct (run vm evs1 s1) as [s2 rs]. simpl. reflexivity.
Qed.

Lemma exec_app evs1 evs2 s :
  exec vm (evs1 ++ evs2) s = exec vm evs2 (exec vm evs1 s).
Proof. unfold exec. rewrite run_app. reflexivity. Qed.

Lemma replies_app evs1 evs2 s :
  replies vm (evs1 ++ evs2) s = replies vm evs1 s ++ replies vm evs2 (exec vm evs1 s).
Proof. unfold replies, exec. rewrite run_app. reflexivity. Qed.

Lemma exec_cons ev evs s :
  exec vm (ev :: evs) s = exec vm evs (fst (handle vm ev s)).
Proof.
  unfold exec. simpl. destruct (handle vm ev s) as [s1 r]. simpl.
  destruct (run vm evs s1). reflexivity.
Qed.

Lemma replies_cons ev evs s :
  replies vm (ev :: evs) s =
  snd (handle vm ev s) :: replies vm evs (fst (handle vm ev s)).
Proof.
  unfold replies. simpl. destruct (handle vm ev s) as [s1 r]. simpl.
  destruct (run vm evs s1). reflexivity.
Qed.

Lemma handle_eq ev s :
  handle vm ev s =
  if _shouldKeepTracing s then try_catch (try_of vm ev) s else (s, acknowledged).
Proof.
  destruct ev; simpl;
    unfold _beforeMessageHandler, _stepHandler, _afterMessageHandler;
    destruct (_shouldKeepTracing s); reflexivity.
Qed.

Ltac try_cases :=
  rewrite ?step_try_eq, ?afterMessage_try_eq, ?beforeMessage_try_start;
  cbv zeta;
  repeat match goal with
         | |- context [match ?x with _ => _ end] => destruct x eqn:?
         end.

(** The flags and the last error are not touched inside a [try] block. *)
Lemma try_of_fields ev s :
  _enabled (fst (try_of vm ev s)) = _enabled s /\
  _dontThrowErrors (fst (try_of vm ev s)) = _dontThrowErrors s /\
  _lastError (fst (try_of vm ev s)) = _lastError s.
Proof.
  destruct ev as [message| |]; simpl; try_cases; simpl;
    unfold top_reset; try destruct (Nat.eqb (depth message) 0);
    simpl; auto.
Qed.

Lemma handle_flags ev s :
  _enabled (fst (handle vm ev s)) = _enabled s /\
  _dontThrowErrors (fst (handle vm ev s)) = _dontThrowErrors s.
Proof.
  rewrite handle_eq. destruct (_shouldKeepTracing s); [|simpl; auto].
  unfold try_catch.
  destruct (try_of_fields ev s) as (He & Hd & _).
  destruct (try_of vm ev s) as [s' [e|u]]; simpl in *; [|auto].
  destruct (_dontThrowErrors s') eqn:E; simpl; split; congruence.
Qed.

(** The replies of the two modes. *)
Lemma handle_strict ev s :
  _dontThrowErrors s = false ->
  _lastError (fst (handle vm ev s)) = _lastError s /\
  next_arg (snd (handle vm ev s)) = reported (snd (handle vm ev s)).
Proof.
  intros Hd. rewrite handle_eq. destruct (_shouldKeepTracing s); [|simpl; auto].
  unfold try_catch.
  destruct (try_of_fields ev s) as (_ & Hd' & Hl).
  destruct (try_of vm ev s) as [s' [e|u]]; simpl in *; [|auto].
  rewrite Hd', Hd. simpl. auto.
Qed.

Lemma handle_tolerant ev s :
  _dontThrowErrors s = true ->
  next_arg (snd (handle vm ev s)) = None /\
  (_lastError s = None ->
   _lastError (fst (handle vm ev s)) = reported (snd (handle vm ev s))).
Proof.
  intros Hd. rewrite handle_eq. destruct (_shouldKeepTracing s); [|simpl; auto].
  unfold try_catch.
  destruct (try_of_fields ev s) as (_ & Hd' & Hl).
  destruct (try_of vm ev s) as [s' [e|u]]; simpl in *.
  - rewrite Hd', Hd. simpl. auto.
  - split; [reflexivity|]. intros H. congruence.
Qed.

(** ** The query *)

(** C5: [getLastTopLevelMessageTrace] fails exactly when the tracer is
    disabled or the list of traces is empty, with one of the two usage
    errors; otherwise it returns the first trace of the list, the
    root. *)
Theorem getLastTopLevelMessageTrace_fails_iff s :
  ((exists e, getLastTopLevelMessageTrace s = inl e) <->
   (_enabled s = false \/ _messageTraces s = [])) /\
  (forall root, getLastTopLevelMessageTrace s = inr root <->
                (_enabled s = true /\ head (_messageTraces s) = Some root)) /\
  (forall e, getLastTopLevelMessageTrace s = inl e <->
             ((_enabled s = false /\ e = JsError msg_tracer_disabled) \/
              (_enabled s = true /\ _messageTraces s = [] /\
               e = JsError msg_no_message))).
Proof.
  unfold getLastTopLevelMessageTrace.
  destruct (_enabled s); simpl; destruct (_messageTraces s) as [|r l];
    simpl; naive_solver.
Qed.

(** ** Error-tolerant mode *)

(** C2: with [_dontThrowErrors] set and an error in [_lastError], each
    of the three handlers calls its continuation without an error,
    sends nothing to the reporter and leaves the tracer as it is (the
    list of traces, every trace object and [_lastError] included); so
    does any sequence of events.  [clearLastError] empties the slot, and
    the handlers trace again. *)
Theorem frozen_until_cleared s e evs
    (Hmode : _dontThrowErrors s = true) (Herr : _lastError s = Some e) :
  (forall message, _beforeMessageHandler vm message s = (s, acknowledged)) /\
  (forall step, _stepHandler step s = (s, acknowledged)) /\
  (forall result, _afterMessageHandler result s = (s, acknowledged)) /\
  run vm evs s = (s, replicate (length evs) acknowledged) /\
  getLastError (clearLastError s) = None /\
  _shouldKeepTracing (clearLastError s) = true.
Proof.
  pose proof (stop_tracing s e Hmode Herr) as Hstop.
  repeat split.
  - intros message. apply (handle_frozen (BeforeMessage message) s Hstop).
  - intros step. apply (handle_frozen (Step step) s Hstop).
  - intros result. apply (handle_frozen (AfterMessage result) s Hstop).
  - apply run_frozen, Hstop.
  - apply keep_tracing_no_error. reflexivity.
Qed.

(** ** Strict mode *)

Lemma run_strict evs s :
  _dontThrowErrors s = false ->
  _lastError (exec vm evs s) = _lastError s /\
  Forall (fun r => next_arg r = reported r) (replies vm evs s).
Proof.
  revert s. induction evs as [|ev evs IH]; intros s Hd.
  - split; [reflexivity|constructor].
  - rewrite exec_cons, replies_cons.
    destruct (handle_strict ev s Hd) as [Hl Hn].
    destruct (handle_flags ev s) as [_ Hd'].
    destruct (IH (fst (handle vm ev s))) as [IH1 IH2]; [congruence|].
    split; [congruence|]. constructor; assumption.
Qed.

Lemma exec_strict_flag evs s :
  _dontThrowErrors s = false -> _dontThrowErrors (exec vm evs s) = false.
Proof.
  revert s. induction evs as [|ev evs IH]; intros s Hd; [exact Hd|].
  rewrite exec_cons. apply IH.
  destruct (handle_flags ev s) as [_ ->]. exact Hd.
Qed.

(** In strict mode the continuation gets the error that the [try] block
    threw, and no error when the block ran to its end. *)
Lemma handle_strict_propagates ev s :
  _dontThrowErrors s = false ->
  next_arg (snd (handle vm ev s)) =
    match snd (try_of vm ev s) with
    | inl e => Some e
    | inr _ => None
    end /\
  reported (snd (handle vm ev s)) = next_arg (snd (handle vm ev s)).
Proof.
  intros Hd. rewrite handle_eq, (keep_tracing_strict s Hd).
  unfold try_catch.
  destruct (try_of_fields ev s) as (_ & Hd' & _).
  destruct (try_of vm ev s) as [s' [e|u]]; simpl in *; [|auto].
  rewrite Hd', Hd. simpl. auto.
Qed.

(** C10: a tracer built with [_dontThrowErrors = false] never gets a
    last error: after any sequence of events [getLastError] is
    [undefined].  The error that the [try] block of a handler throws is
    the argument that the handler gives to its continuation (and sends
    to the reporter); when the block throws nothing the continuation is
    called without an error. *)
Theorem strict_mode_last_error_unset evs :
  getLastError (exec vm evs (enableTracing (new_VMTracer false))) = None /\
  getLastError (exec vm evs (new_VMTracer false)) = None /\
  Forall (fun r => next_arg r = reported r)
    (replies vm evs (enableTracing (new_VMTracer false))) /\
  (forall ev,
     next_arg
       (snd (handle vm ev (exec vm evs (enableTracing (new_VMTracer false))))) =
     match snd (try_of vm ev
                  (exec vm evs (enableTracing (new_VMTracer false)))) with
     | inl e => Some e
     | inr _ => None
     end) /\
  (forall ev,
     _lastError
       (fst (handle vm ev
               (exec vm evs (enableTracing (new_VMTracer false))))) = None).
Proof.
  destruct (run_strict evs (enableTracing (new_VMTracer false)) eq_refl)
    as [H1 H2].
  destruct (run_strict evs (new_VMTracer false) eq_refl) as [H3 _].
  pose proof (exec_strict_flag evs (enableTracing (new_VMTracer false))
                eq_refl) as Hd.
  split; [exact H1|]. split; [exact H3|]. split; [exact H2|].
  split.
  - intros ev. apply (handle_strict_propagates ev _ Hd).
  - intros ev. destruct (handle_strict ev _ Hd) as [Hl _].
    rewrite Hl. exact H1.
Qed.

(** ** [step] and [afterMessage] with no open frame *)

(** C9, as the code has it: with no open frame and tracing going on,
    the [try] block of [_stepHandler] and of [_afterMessageHandler]
    throws the runtime's [TypeError] on the missing innermost frame,
    which is not one of the tracer's diagnostics, and changes no frame.
    In strict mode the continuation is called with this error; in
    error-tolerant mode the error becomes the last error and the
    continuation is called without an error. *)
Theorem empty_stack_type_error s
    (Hkeep : _shouldKeepTracing s = true) (Hempty : _messageTraces s = []) :
  (forall step, _stepHandler step s = caught_type_error s) /\
  (forall result, _afterMessageHandler result s = caught_type_error s) /\
  is_invariant_diagnostic TypeError = false /\
  _messageTraces (fst (caught_type_error s)) = [] /\
  heap (fst (caught_type_error s)) = heap s /\
  reported (snd (caught_type_error s)) = Some TypeError /\
  next_arg (snd (caught_type_error s)) =
    (if _dontThrowErrors s then None else Some TypeError) /\
  _lastError (fst (caught_type_error s)) =
    (if _dontThrowErrors s then Some TypeError else _lastError s).
Proof.
  assert (Hin : innermost s = None).
  { unfold innermost. rewrite Hempty. reflexivity. }
  repeat split.
  - intros step. unfold _stepHandler, try_catch. rewrite Hkeep. simpl.
    rewrite step_try_eq, Hin. reflexivity.
  - intros result. unfold _afterMessageHandler, try_catch.
    rewrite Hkeep. simpl. rewrite afterMessage_try_eq, Hin. reflexivity.
  - unfold caught_type_error. destruct (_dontThrowErrors s); assumption.
  - unfold caught_type_error. destruct (_dontThrowErrors s); reflexivity.
  - unfold caught_type_error. destruct (_dontThrowErrors s); reflexivity.
  - unfold caught_type_error. destruct (_dontThrowErrors s); reflexivity.
  - unfold caught_type_error. destruct (_dontThrowErrors s); reflexivity.
Qed.

(** ** [afterMessage] on an open frame *)

Lemma innermost_snoc s r :
  innermost s = Some r ->
  exists l, _messageTraces s = l ++ [r].
Proof. unfold innermost. intros H. apply last_Some in H. exact H. Qed.

Lemma removelast_snoc {A} (l : list A) (x : A) : removelast (l ++ [x]) = l.
Proof. apply removelast_last. Qed.

(** C4: [_afterMessageHandler], tracing going on, with [r] the innermost
    frame: the continuation is called without an error; the frame gets
    [error] and [returnData] from the result and, if it is a [Create],
    [deployedContract]; nothing else of it changes, and no other
    object.  The frame is popped if and only if the list had more than
    one entry; the first entry, the root, stays. *)
Theorem afterMessage_completes_innermost s result r trace
    (Hkeep : _shouldKeepTracing s = true)
    (Hr : innermost s = Some r) (Ht : heap s !! r = Some trace) :
  let s' := fst (_afterMessageHandler result s) in
  let trace' := completed result trace in
  snd (_afterMessageHandler result s) = acknowledged /\
  heap s' = <[r := trace']> (heap s) /\
  heap s' !! r = Some trace' /\
  error trace' = exceptionError (execResult result) /\
  returnData trace' = returnValue (execResult result) /\
  (forall c, trace = Create c ->
     exists c', trace' = Create c' /\
                create_deployedContract c' = createdAddress result) /\
  (forall c, trace = Call c ->
     trace' = Call (mkCall (call_code c) (call_calldata c) (call_steps c)
                      (call_value c) (returnValue (execResult result))
                      (call_address c) (call_numberOfSubtraces c)
                      (call_depth c) (exceptionError (execResult result)))) /\
  steps trace' = steps trace /\
  numberOfSubtraces trace' = numberOfSubtraces trace /\
  (Nat.lt 1 (length (_messageTraces s)) <->
   _messageTraces s = _messageTraces s' ++ [r]) /\
  (Nat.le (length (_messageTraces s)) 1 <->
   _messageTraces s' = _messageTraces s) /\
  head (_messageTraces s') = head (_messageTraces s) /\
  _messageTraces s' <> [] /\
  _lastError s' = _lastError s /\
  _enabled s' = _enabled s.
Proof.
  intros s' trace'. subst s'.
  unfold _afterMessageHandler, try_catch. rewrite Hkeep. simpl.
  rewrite (afterMessage_try_frame result s r trace Hr Ht). simpl.
  destruct (innermost_snoc s r Hr) as [l Hl]. rewrite Hl.
  rewrite removelast_snoc, length_app. simpl length.
  rewrite Nat.add_1_r.
  pose proof (lookup_lt_Some _ _ _ Ht) as Hlt.
  assert (Hfields :
    error trace' = exceptionError (execResult result) /\
    returnData trace' = returnValue (execResult result) /\
    steps trace' = steps trace /\
    numberOfSubtraces trace' = numberOfSubtraces trace).
  { subst trace'. destruct trace; repeat split. }
  destruct Hfields as (He & Hd & Hs & Hn).
  split; [reflexivity|]. split; [reflexivity|].
  split; [apply list_lookup_insert_eq, Hlt|].
  split; [exact He|]. split; [exact Hd|].
  split; [intros c ->; eexists; split; reflexivity|].
  split; [intros c ->; reflexivity|].
  split; [exact Hs|]. split; [exact Hn|].
  destruct l as [|x l]; simpl.
  - unfold Nat.lt, Nat.le. repeat split; try lia; try discriminate.
  - unfold Nat.lt, Nat.le. repeat split; try lia; try discriminate.
    intros H. exfalso. apply (f_equal length) in H. simpl in H.
    rewrite length_app in H. simpl in H. lia.
Qed.

(** ** [beforeMessage] of a top-level message *)

Lemma top_reset_top message s :
  depth message = 0%nat -> top_reset message s = with_messageTraces [] s.
Proof. unfold top_reset. intros ->. reflexivity. Qed.

Lemma top_reset_nested message s :
  depth message <> 0%nat -> top_reset message s = s.
Proof.
  unfold top_reset. intros H.
  destruct (Nat.eqb_spec (depth message) 0); [contradiction|reflexivity].
Qed.

Lemma new_trace_result message s :
  snd (new_trace vm message s) =
  match trace_of_message vm message with
  | inl e => inl e
  | inr _ => inr (length (heap s))
  end.
Proof.
  rewrite new_trace_eq. destruct (trace_of_message vm message); reflexivity.
Qed.

Lemma trace_of_message_depth message trace :
  trace_of_message vm message = inr trace -> depth_of trace = depth message.
Proof.
  unfold trace_of_message. intros H.
  destruct (to message) as [a|].
  - destruct ((0 <? BN a) && (BN a <=? (MAX_PRECOMPILE_NUMBER vm))).
    + injection H as <-. reflexivity.
    + destruct (_getContractCode vm _); [discriminate|].
      injection H as <-. reflexivity.
  - injection H as <-. reflexivity.
Qed.

(** C7: [_beforeMessageHandler], tracing going on, on a message of
    depth 0: the list of traces is emptied before the frame of the
    message is built, so that afterwards the list holds the new frame
    alone, a fresh object that is attached to no older frame (or is
    empty, when the lookup of the code failed); the older objects are
    left as they were. *)
Theorem top_level_message_discards_previous_tree s message
    (Hkeep : _shouldKeepTracing s = true)
    (Hdepth : depth message = 0%nat) :
  let s' := fst (_beforeMessageHandler vm message s) in
  let reply := snd (_beforeMessageHandler vm message s) in
  beforeMessage_try vm message s =
    beforeMessage_try vm message (with_messageTraces [] s) /\
  (forall root, snd (new_trace vm message s) = inr root ->
     reply = acknowledged /\
     _messageTraces s' = [root] /\
     root = length (heap s) /\
     exists trace, heap s' = heap s ++ [trace] /\ depth_of trace = 0%nat) /\
  (forall e, snd (new_trace vm message s) = inl e ->
     reported reply = Some e /\
     _messageTraces s' = [] /\
     heap s' = heap s) /\
  (length (_messageTraces s') <= 1)%nat /\
  (forall r trace, heap s !! r = Some trace -> heap s' !! r = Some trace).
Proof.
  intros s' reply. subst s' reply.
  unfold _beforeMessageHandler, try_catch. rewrite Hkeep. simpl.
  rewrite new_trace_result.
  split.
  { rewrite !beforeMessage_try_start. rewrite !top_reset_top by exact Hdepth.
    reflexivity. }
  rewrite beforeMessage_try_start. rewrite top_reset_top by exact Hdepth.
  destruct (trace_of_message vm message) as [e|trace] eqn:Ht; cbv zeta.
  - simpl.
    assert (Hs : forall b : bool,
      (if b then (with_lastError (Some e) (with_messageTraces [] s),
                  mkReply None (Some e))
       else (with_messageTraces [] s, mkReply (Some e) (Some e))) =
      ((if b then with_lastError (Some e) (with_messageTraces [] s)
        else with_messageTraces [] s),
       mkReply (if b then None else Some e) (Some e))).
    { intros []; reflexivity. }
    rewrite Hs. simpl.
    split; [intros root H; discriminate|].
    split.
    { intros e' H. injection H as <-.
      destruct (_dontThrowErrors s); repeat split. }
    split; [destruct (_dontThrowErrors s); simpl; lia|].
    intros r t H. destruct (_dontThrowErrors s); exact H.
  - unfold innermost. simpl.
    split.
    { intros root H. injection H as <-.
      split; [reflexivity|]. split; [reflexivity|]. split; [reflexivity|].
      exists trace. split; [reflexivity|].
      rewrite (trace_of_message_depth _ _ Ht). exact Hdepth. }
    split; [intros e H; discriminate|].
    split; [lia|].
    intros r t H. apply lookup_app_l_Some, H.
Qed.

(** ** Events on an open precompile *)

(** C8, as the code has it: tracing going on and the innermost open
    frame a precompile.  The [try] block of [_stepHandler] throws the
    diagnostic of a step in a precompile.  The [try] block of
    [_beforeMessageHandler], on a message of depth other than 0, throws
    the diagnostic of a message in a precompile once the frame of the
    message has been built; when the lookup of the code of a call fails,
    the error of the lookup is thrown instead, before the parent is
    looked at.  In every case the error is sent to the reporter; in
    strict mode it is given to the continuation and the last error stays
    as it was; in error-tolerant mode the continuation is called without
    an error and the error becomes the last error.  Neither the list of
    traces nor any existing object has changed. *)
Theorem precompile_frame_rejects_events s r pt
    (Hkeep : _shouldKeepTracing s = true)
    (Hr : innermost s = Some r)
    (Ht : heap s !! r = Some (Precompile pt)) :
  (forall step,
     let s' := fst (_stepHandler step s) in
     let reply := snd (_stepHandler step s) in
     reported reply = Some (JsError msg_step_in_precompile) /\
     next_arg reply =
       (if _dontThrowErrors s then None else reported reply) /\
     _lastError s' =
       (if _dontThrowErrors s then reported reply else _lastError s) /\
     _messageTraces s' = _messageTraces s /\
     heap s' = heap s) /\
  (forall message,
     depth message <> 0%nat ->
     let s' := fst (_beforeMessageHandler vm message s) in
     let reply := snd (_beforeMessageHandler vm message s) in
     (forall c, snd (new_trace vm message s) = inr c ->
        reported reply = Some (JsError msg_message_in_precompile)) /\
     (forall e, snd (new_trace vm message s) = inl e ->
        reported reply = Some e) /\
     next_arg reply =
       (if _dontThrowErrors s then None else reported reply) /\
     _lastError s' =
       (if _dontThrowErrors s then reported reply else _lastError s) /\
     _messageTraces s' = _messageTraces s /\
     (forall r' trace,
        heap s !! r' = Some trace -> heap s' !! r' = Some trace)) /\
  is_invariant_diagnostic (JsError msg_step_in_precompile) = true /\
  is_invariant_diagnostic (JsError msg_message_in_precompile) = true.
Proof.
  split; [|split; [|split; reflexivity]].
  - intros step s' reply. subst s' reply.
    unfold _stepHandler, try_catch. rewrite Hkeep. simpl.
    rewrite (step_try_precompile step s r pt Hr Ht).
    destruct (_dontThrowErrors s); simpl; repeat split.
  - intros message Hd s' reply. subst s' reply.
    unfold _beforeMessageHandler, try_catch. rewrite Hkeep. simpl.
    rewrite new_trace_result, beforeMessage_try_start.
    rewrite top_reset_nested by exact Hd.
    destruct (trace_of_message vm message) as [e|trace]; cbv zeta.
    + destruct (_dontThrowErrors s); simpl;
        (split; [intros c H; discriminate|]);
        (split; [intros e' H; injection H as <-; reflexivity|]);
        repeat split; auto.
    + assert (Hin : innermost (with_heap (heap s ++ [trace]) s) = Some r)
        by exact Hr.
      rewrite Hin, (lookup_app_l_Some _ _ _ _ Ht). simpl.
      destruct (_dontThrowErrors s); simpl;
        (split; [intros c H; reflexivity|]);
        (split; [intros e' H; discriminate|]);
        (split; [reflexivity|]);
        (split; [reflexivity|]);
        (split; [reflexivity|]);
        intros r' t H; apply lookup_app_l_Some, H.
Qed.

(** ** Invariants of the store *)

Lemma count_subtraces_snoc l x :
  count_subtraces (l ++ [x]) =
  (count_subtraces l + (if is_subtrace x then 1 else 0))%nat.
Proof.
  unfold count_subtraces. rewrite filter_app, length_app.
  destruct x; reflexivity.
Qed.

Lemma with_child_counted c trace :
  subtraces_counted trace -> subtraces_counted (with_child c trace).
Proof.
  destruct trace; simpl; intros H; try exact I;
    rewrite count_subtraces_snoc, H; simpl; lia.
Qed.

Lemma with_step_counted n trace :
  subtraces_counted trace -> subtraces_counted (with_step n trace).
Proof.
  destruct trace; unfold with_step; simpl; intros H; try exact I;
    rewrite count_subtraces_snoc, H; simpl; lia.
Qed.

Lemma completed_counted result trace :
  subtraces_counted trace -> subtraces_counted (completed result trace).
Proof. destruct trace; simpl; intros H; exact H. Qed.

Lemma trace_of_message_counted message trace :
  trace_of_message vm message = inr trace -> subtraces_counted trace.
Proof.
  unfold trace_of_message. intros H.
  destruct (to message) as [a|].
  - destruct ((0 <? BN a) && (BN a <=? (MAX_PRECOMPILE_NUMBER vm))).
    + injection H as <-. exact I.
    + destruct (_getContractCode vm _); [discriminate|].
      injection H as <-. reflexivity.
  - injection H as <-. reflexivity.
Qed.

Lemma try_of_heap_counted ev s :
  heap_counted s -> heap_counted (fst (try_of vm ev s)).
Proof.
  unfold heap_counted. intros H.
  destruct ev as [message|step|result]; simpl.
  - rewrite beforeMessage_try_start.
    destruct (trace_of_message vm message) as [e|trace] eqn:Ht; cbv zeta.
    { simpl. rewrite top_reset_heap. exact H. }
    assert (H' : Forall subtraces_counted (heap s ++ [trace])).
    { apply Forall_app. split; [exact H|].
      constructor; [|constructor].
      eapply trace_of_message_counted, Ht. }
    destruct (innermost _) as [p|]; [|exact H'].
    destruct ((heap s ++ [trace]) !! p) as [parent|] eqn:Hp; [|exact H'].
    destruct (isPrecompileTrace parent); [exact H'|]. simpl.
    apply Forall_insert; [exact H'|].
    apply with_child_counted. eapply Forall_lookup_1; eassumption.
  - rewrite step_try_eq.
    destruct (innermost s) as [r|]; [|exact H].
    destruct (heap s !! r) as [trace|] eqn:Hr; [|exact H].
    destruct (isPrecompileTrace trace); [exact H|]. simpl.
    apply Forall_insert; [exact H|].
    apply with_step_counted. eapply Forall_lookup_1; eassumption.
  - rewrite afterMessage_try_eq.
    destruct (innermost s) as [r|]; [|exact H].
    destruct (heap s !! r) as [trace|] eqn:Hr; [|exact H]. simpl.
    apply Forall_insert; [exact H|].
    apply completed_counted. eapply Forall_lookup_1; eassumption.
Qed.

Lemma try_catch_heap body s :
  heap (fst (try_catch body s)) = heap (fst (body s)).
Proof.
  unfold try_catch. destruct (body s) as [s' [e|u]]; [|reflexivity].
  destruct (_dontThrowErrors s'); reflexivity.
Qed.

Lemma try_catch_messageTraces body s :
  _messageTraces (fst (try_catch body s)) = _messageTraces (fst (body s)).
Proof.
  unfold try_catch. destruct (body s) as [s' [e|u]]; [|reflexivity].
  destruct (_dontThrowErrors s'); reflexivity.
Qed.

Lemma handle_heap_counted ev s :
  heap_counted s -> heap_counted (fst (handle vm ev s)).
Proof.
  intros H. rewrite handle_eq.
  destruct (_shouldKeepTracing s); [|exact H].
  unfold heap_counted. rewrite try_catch_heap.
  apply try_of_heap_counted, H.
Qed.

Lemma exec_heap_counted evs s :
  heap_counted s -> heap_counted (exec vm evs s).
Proof.
  revert s. induction evs as [|ev evs IH]; intros s H; [exact H|].
  rewrite exec_cons. apply IH, handle_heap_counted, H.
Qed.

Lemma steps_below_mono n m trace :
  (n <= m)%nat -> steps_below n trace -> steps_below m trace.
Proof. intros Hle H l c Hl Hc. specialize (H l c Hl Hc). lia. Qed.

Lemma with_child_below n c trace :
  (c < n)%nat -> steps_below n trace -> steps_below n (with_child c trace).
Proof.
  intros Hc H l c' Hl Hin.
  destruct trace as [t|t|t]; simpl in *; try discriminate;
    injection Hl as <-; apply elem_of_app in Hin as [Hin|Hin];
    try (eapply H; [reflexivity|exact Hin]);
    apply list_elem_of_singleton in Hin; injection Hin as ->; exact Hc.
Qed.

Lemma with_step_below n k trace :
  steps_below n trace -> steps_below n (with_step k trace).
Proof.
  intros H l c' Hl Hin.
  destruct trace as [t|t|t]; unfold with_step in *; simpl in *;
    try discriminate;
    injection Hl as <-; apply elem_of_app in Hin as [Hin|Hin];
    try (eapply H; [reflexivity|exact Hin]);
    apply list_elem_of_singleton in Hin; discriminate.
Qed.

Lemma completed_below n result trace :
  steps_below n trace -> steps_below n (completed result trace).
Proof.
  intros H l c Hl Hin.
  destruct trace as [t|t|t]; simpl in *; try discriminate;
    eapply H; eauto.
Qed.

Lemma trace_of_message_below message trace n :
  trace_of_message vm message = inr trace -> steps_below n trace.
Proof.
  unfold trace_of_message. intros H l c Hl Hin.
  destruct (to message) as [a|].
  - destruct ((0 <? BN a) && (BN a <=? (MAX_PRECOMPILE_NUMBER vm))).
    + injection H as <-. discriminate.
    + destruct (_getContractCode vm _); [discriminate|].
      injection H as <-. injection Hl as <-. inversion Hin.
  - injection H as <-. injection Hl as <-. inversion Hin.
Qed.

Lemma try_of_heap_closed ev s :
  heap_closed s -> heap_closed (fst (try_of vm ev s)).
Proof.
  unfold heap_closed. intros H.
  destruct ev as [message|step|result]; simpl.
  - rewrite beforeMessage_try_start.
    destruct (trace_of_message vm message) as [e|trace] eqn:Ht; cbv zeta.
    { simpl. rewrite top_reset_heap. exact H. }
    assert (H' : Forall (steps_below (length (heap s ++ [trace])))
                   (heap s ++ [trace])).
    { apply Forall_app. split.
      - eapply Forall_impl; [exact H|]. intros t. apply steps_below_mono.
        rewrite length_app. lia.
      - constructor; [|constructor].
        eapply trace_of_message_below, Ht. }
    destruct (innermost _) as [p|]; [|exact H'].
    destruct ((heap s ++ [trace]) !! p) as [parent|] eqn:Hp; [|exact H'].
    destruct (isPrecompileTrace parent); [exact H'|]. simpl.
    rewrite length_insert.
    apply Forall_insert; [exact H'|].
    apply with_child_below; [rewrite length_app; simpl; lia|].
    eapply Forall_lookup_1; eassumption.
  - rewrite step_try_eq.
    destruct (innermost s) as [r|]; [|exact H].
    destruct (heap s !! r) as [trace|] eqn:Hr; [|exact H].
    destruct (isPrecompileTrace trace); [exact H|]. simpl.
    rewrite length_insert.
    apply Forall_insert; [exact H|].
    apply with_step_below. eapply Forall_lookup_1; eassumption.
  - rewrite afterMessage_try_eq.
    destruct (innermost s) as [r|]; [|exact H].
    destruct (heap s !! r) as [trace|] eqn:Hr; [|exact H]. simpl.
    rewrite length_insert.
    apply Forall_insert; [exact H|].
    apply completed_below. eapply Forall_lookup_1; eassumption.
Qed.

Lemma top_reset_messageTraces message s :
  _messageTraces (top_reset message s) = [] \/
  _messageTraces (top_reset message s) = _messageTraces s.
Proof.
  unfold top_reset. destruct (Nat.eqb (depth message) 0); simpl; auto.
Qed.

Lemma try_of_refs_allocated ev s :
  refs_allocated s -> refs_allocated (fst (try_of vm ev s)).
Proof.
  unfold refs_allocated. intros H.
  destruct ev as [message|step|result]; simpl.
  - assert (H0 : Forall (fun r => (r < length (heap s))%nat)
                   (_messageTraces (top_reset message s))).
    { destruct (top_reset_messageTraces message s) as [-> | ->];
        [constructor|exact H]. }
    assert (H1 : forall trace,
               Forall (fun r => (r < length (heap s ++ [trace]))%nat)
                 (_messageTraces (top_reset message s))).
    { intros trace. eapply Forall_impl; [exact H0|].
      intros r Hr. simpl in Hr. rewrite length_app. simpl. lia. }
    rewrite beforeMessage_try_start.
    destruct (trace_of_message vm message) as [e|trace] eqn:Ht; cbv zeta.
    { simpl. rewrite top_reset_heap. exact H0. }
    destruct (innermost _) as [p|].
    2:{ simpl. constructor; [|constructor]. rewrite length_app. simpl. lia. }
    destruct ((heap s ++ [trace]) !! p) as [parent|] eqn:Hp;
      [|simpl; apply H1].
    destruct (isPrecompileTrace parent); [simpl; apply H1|]. simpl.
    rewrite length_insert. apply Forall_app. split; [apply H1|].
    constructor; [|constructor]. rewrite length_app. simpl. lia.
  - rewrite step_try_eq.
    destruct (innermost s) as [r|]; [|exact H].
    destruct (heap s !! r) as [trace|] eqn:Hr; [|exact H].
    destruct (isPrecompileTrace trace); [exact H|]. simpl.
    rewrite length_insert. exact H.
  - rewrite afterMessage_try_eq.
    destruct (innermost s) as [r|] eqn:Hin; [|exact H].
    destruct (heap s !! r) as [trace|] eqn:Hr; [|exact H]. simpl.
    rewrite length_insert.
    destruct (Nat.ltb 1 (length (_messageTraces s))); [|exact H].
    destruct (innermost_snoc s r Hin) as [l Hl]. rewrite Hl in *.
    rewrite removelast_snoc. apply Forall_app in H. apply H.
Qed.

Lemma handle_heap_closed ev s :
  heap_closed s -> heap_closed (fst (handle vm ev s)).
Proof.
  intros H. rewrite handle_eq.
  destruct (_shouldKeepTracing s); [|exact H].
  unfold heap_closed. rewrite try_catch_heap.
  apply try_of_heap_closed, H.
Qed.

Lemma handle_refs_allocated ev s :
  refs_allocated s -> refs_allocated (fst (handle vm ev s)).
Proof.
  intros H. rewrite handle_eq.
  destruct (_shouldKeepTracing s); [|exact H].
  unfold refs_allocated.
  rewrite try_catch_heap, try_catch_messageTraces.
  apply try_of_refs_allocated, H.
Qed.

Lemma exec_heap_closed evs s : heap_closed s -> heap_closed (exec vm evs s).
Proof.
  revert s. induction evs as [|ev evs IH]; intros s H; [exact H|].
  rewrite exec_cons. apply IH, handle_heap_closed, H.
Qed.

Lemma exec_refs_allocated evs s :
  refs_allocated s -> refs_allocated (exec vm evs s).
Proof.
  revert s. induction evs as [|ev evs IH]; intros s H; [exact H|].
  rewrite exec_cons. apply IH, handle_refs_allocated, H.
Qed.

(** The frames of a tree are objects of the store. *)
Lemma in_tree_allocated s root r :
  heap_closed s -> (root < length (heap s))%nat ->
  in_tree (heap s) root r -> (r < length (heap s))%nat.
Proof.
  intros Hc Hroot Htree. induction Htree as [|r p trace l c _ IH Hp Hl Hin].
  - exact Hroot.
  - unfold heap_closed in Hc.
    eapply (Forall_lookup_1 _ _ _ _ Hc Hp); eassumption.
Qed.

Lemma new_VMTracer_invariants dontThrowErrors :
  let s := enableTracing (new_VMTracer dontThrowErrors) in
  heap_counted s /\ heap_closed s /\ refs_allocated s.
Proof. repeat split; constructor. Qed.

Lemma subtraces_counted_eq trace :
  subtraces_counted trace ->
  numberOfSubtraces trace = option_map count_subtraces (steps trace).
Proof. destruct trace; simpl; intros H; congruence. Qed.

(** C1: after any prefix of a well-formed sequence of events, handled by
    a new tracer, every frame of the tree under the root is an object
    whose [numberOfSubtraces] is the number of [MessageTrace] entries of
    its [steps] ([Create] and [Call]; a precompile has neither
    field). *)
Theorem numberOfSubtraces_counts_subtraces dontThrowErrors evs pre root r
    (Hwf : well_formed evs) (Hpre : pre `prefix_of` evs) :
  let s := exec vm pre (enableTracing (new_VMTracer dontThrowErrors)) in
  head (_messageTraces s) = Some root ->
  in_tree (heap s) root r ->
  exists trace,
    heap s !! r = Some trace /\
    numberOfSubtraces trace = option_map count_subtraces (steps trace).
Proof.
  intros s Hroot Htree.
  destruct (new_VMTracer_invariants dontThrowErrors) as (H1 & H2 & H3).
  pose proof (exec_heap_counted pre _ H1) as Hcount.
  pose proof (exec_heap_closed pre _ H2) as Hclosed.
  pose proof (exec_refs_allocated pre _ H3) as Halloc.
  fold s in Hcount, Hclosed, Halloc.
  assert (Hlt : (root < length (heap s))%nat).
  { unfold refs_allocated in Halloc.
    destruct (_messageTraces s) as [|x l]; [discriminate|].
    injection Hroot as ->. inversion Halloc; assumption. }
  pose proof (in_tree_allocated s root r Hclosed Hlt Htree) as Hr.
  apply lookup_lt_is_Some_2 in Hr. destruct Hr as [trace Hr].
  exists trace. split; [exact Hr|].
  apply subtraces_counted_eq.
  unfold heap_counted in Hcount.
  eapply Forall_lookup_1; eassumption.
Qed.

(** ** The classification of a message with a target *)

Lemma precompile_range_spec x :
  (0 <? x) && (x <=? (MAX_PRECOMPILE_NUMBER vm)) = true <->
  1 <= x <= Z.of_nat (precompiles_length vm) + 1.
Proof.
  unfold MAX_PRECOMPILE_NUMBER.
  rewrite andb_true_iff, Z.ltb_lt, Z.leb_le. lia.
Qed.

Lemma trace_of_message_target message addr :
  to message = Some addr ->
  (1 <= BN addr <= Z.of_nat (precompiles_length vm) + 1 ->
   trace_of_message vm message =
     inr (Precompile (mkPrecompile (BN addr) (data message) (value message)
                        DUMMY_RETURN_DATA (depth message) None))) /\
  (~ 1 <= BN addr <= Z.of_nat (precompiles_length vm) + 1 ->
   forall trace, trace_of_message vm message = inr trace ->
                 isPrecompileTrace trace = false).
Proof.
  intros Hto. unfold trace_of_message. rewrite Hto.
  destruct ((0 <? BN addr) && (BN addr <=? (MAX_PRECOMPILE_NUMBER vm))) eqn:E.
  - apply precompile_range_spec in E. split; [reflexivity|contradiction].
  - split.
    + intros H. apply precompile_range_spec in H. congruence.
    + intros _ trace H.
      destruct (_getContractCode vm _); [discriminate|].
      injection H as <-. reflexivity.
Qed.

Lemma trace_of_message_class message addr trace :
  to message = Some addr ->
  trace_of_message vm message = inr trace ->
  (isPrecompileTrace trace = true <->
   1 <= BN addr <= Z.of_nat (precompiles_length vm) + 1) /\
  (forall pt, trace = Precompile pt -> precompile pt = BN addr).
Proof.
  intros Hto Ht.
  destruct (trace_of_message_target message addr Hto) as [Hin Hout].
  destruct (Z_le_dec 1 (BN addr)) as [H1|H1];
    [destruct (Z_le_dec (BN addr) (Z.of_nat (precompiles_length vm) + 1))
       as [H2|H2]|].
  - rewrite Hin in Ht by lia. injection Ht as <-. simpl.
    split; [split; [lia|reflexivity]|].
    intros pt H. injection H as <-. reflexivity.
  - assert (Hf : isPrecompileTrace trace = false)
      by (apply Hout; [lia|exact Ht]).
    split; [split; [congruence|lia]|].
    intros pt ->. discriminate.
  - assert (Hf : isPrecompileTrace trace = false)
      by (apply Hout; [lia|exact Ht]).
    split; [split; [congruence|lia]|].
    intros pt ->. discriminate.
Qed.


(** ** Complete messages *)

(** A handler that sent nothing to the reporter ran its [try] block to
    the end. *)
Lemma handle_clean ev s :
  _shouldKeepTracing s = true ->
  reported (snd (handle vm ev s)) = None ->
  try_of vm ev s = (fst (handle vm ev s), inr tt).
Proof.
  intros Hkeep. rewrite handle_eq, Hkeep. unfold try_catch.
  destruct (try_of vm ev s) as [s' [e|[]]]; [|reflexivity].
  destruct (_dontThrowErrors s'); simpl; discriminate.
Qed.

Lemma well_nested_app evs1 evs2 k :
  well_nested k (evs1 ++ evs2) =
  match well_nested k evs1 with
  | Some k1 => well_nested k1 evs2
  | None => None
  end.
Proof.
  revert k. induction evs1 as [|ev evs1 IH]; intros k; simpl; [reflexivity|].
  destruct ev as [message|step|result].
  - destruct (Nat.eqb (depth message) k); [apply IH|reflexivity].
  - destruct k; [reflexivity|apply IH].
  - destruct k; [reflexivity|apply IH].
Qed.

Lemma handle_open_frames ev k k' s :
  open_frames k s ->
  well_nested k [ev] = Some k' ->
  reported (snd (handle vm ev s)) = None ->
  open_frames k' (fst (handle vm ev s)).
Proof.
  intros [Herr Hlen] Hwf Hclean.
  pose proof (keep_tracing_no_error s Herr) as Hkeep.
  pose proof (handle_clean ev s Hkeep Hclean) as Htry.
  destruct (try_of_fields ev s) as (_ & _ & Herr').
  rewrite Htry in Herr'. simpl in Herr'.
  split; [congruence|].
  apply (f_equal fst) in Htry. simpl in Htry. rewrite <- Htry.
  pose proof (handle_clean ev s Hkeep Hclean) as Hres.
  apply (f_equal snd) in Hres. simpl in Hres.
  destruct ev as [message|step|result]; simpl in *.
  - destruct (Nat.eqb_spec (depth message) k) as [Hd|]; [|discriminate].
    injection Hwf as <-.
    rewrite beforeMessage_try_start in *.
    destruct (trace_of_message vm message) as [e|trace]; [discriminate|].
    cbv zeta in *. unfold innermost in *. simpl in *.
    destruct k as [|k].
    + rewrite (top_reset_top message s Hd) in *. simpl. reflexivity.
    + rewrite (top_reset_nested message s) in * by lia.
      destruct (last (_messageTraces s)) as [p|] eqn:Hp.
      2:{ apply last_None in Hp. rewrite Hp in Hlen. discriminate. }
      destruct ((heap s ++ [trace]) !! p) as [parent|]; [|discriminate].
      destruct (isPrecompileTrace parent); [discriminate|]. simpl.
      rewrite length_app. simpl. lia.
  - destruct k as [|k]; [discriminate|]. injection Hwf as <-.
    rewrite step_try_eq in *.
    destruct (innermost s) as [r|]; [|discriminate].
    destruct (heap s !! r) as [trace|]; [|discriminate].
    destruct (isPrecompileTrace trace); [discriminate|]. simpl. exact Hlen.
  - destruct k as [|k]; [discriminate|]. injection Hwf as <-.
    rewrite afterMessage_try_eq in *.
    destruct (innermost s) as [r|] eqn:Hr; [|discriminate].
    destruct (heap s !! r) as [trace|]; [|discriminate]. simpl.
    destruct (innermost_snoc s r Hr) as [l Hl]. rewrite Hl in *.
    rewrite removelast_snoc. rewrite length_app in *. simpl in *.
    destruct k as [|k].
    + assert (l = []) as -> by (destruct l; [reflexivity|simpl in Hlen; lia]).
      simpl. lia.
    + replace (length l + 1)%nat with (S (length l)) by lia.
      destruct l as [|x l]; simpl in *; lia.
Qed.

Lemma exec_open_frames evs k k' s :
  open_frames k s ->
  well_nested k evs = Some k' ->
  Forall (fun reply => reported reply = None) (replies vm evs s) ->
  open_frames k' (exec vm evs s).
Proof.
  revert k s. induction evs as [|ev evs IH]; intros k s Hopen Hwf Hclean.
  - simpl in Hwf. injection Hwf as <-. exact Hopen.
  - rewrite exec_cons. rewrite replies_cons in Hclean.
    inversion Hclean as [|? ? Hc1 Hc2]; subst.
    change (ev :: evs) with ([ev] ++ evs) in Hwf.
    rewrite well_nested_app in Hwf.
    destruct (well_nested k [ev]) as [k1|] eqn:Hk1; [|discriminate].
    eapply IH; [|exact Hwf|exact Hc2].
    eapply handle_open_frames; eassumption.
Qed.

Lemma exec_enabled evs s : _enabled (exec vm evs s) = _enabled s.
Proof.
  revert s. induction evs as [|ev evs IH]; intros s; [reflexivity|].
  rewrite exec_cons, IH. apply handle_flags.
Qed.

(** X18: after a well-formed sequence of complete messages, handled by
    a new, enabled tracer without an error in any handler,
    [getLastTopLevelMessageTrace] succeeds, and the root it returns has
    [error] and [returnData], and [deployedContract] if it is a
    [Create], from the result of the last [afterMessage]. *)
Theorem root_populated_after_complete_messages
    dontThrowErrors evs result
    (Hwf : well_formed (evs ++ [AfterMessage result]))
    (Hclean :
       Forall (fun reply => reported reply = None)
         (replies vm (evs ++ [AfterMessage result])
            (enableTracing (new_VMTracer dontThrowErrors)))) :
  let s := exec vm (evs ++ [AfterMessage result])
             (enableTracing (new_VMTracer dontThrowErrors)) in
  exists root trace,
    getLastTopLevelMessageTrace s = inr root /\
    _messageTraces s = [root] /\
    heap s !! root = Some trace /\
    error trace = exceptionError (execResult result) /\
    returnData trace = returnValue (execResult result) /\
    (forall c, trace = Create c ->
               create_deployedContract c = createdAddress result).
Proof.
  intros s. subst s. set (s0 := enableTracing (new_VMTracer dontThrowErrors)).
  fold s0 in Hclean.
  unfold well_formed in Hwf. rewrite well_nested_app in Hwf.
  destruct (well_nested 0 evs) as [k|] eqn:Hk; [|discriminate].
  assert (k = 1%nat) as ->.
  { simpl in Hwf. destruct k as [|[|k]]; [discriminate|reflexivity|].
    discriminate. }
  rewrite replies_app in Hclean.
  apply Forall_app in Hclean as [Hc1 Hc2].
  assert (Hopen : open_frames 1 (exec vm evs s0)).
  { eapply exec_open_frames; [|exact Hk|exact Hc1].
    split; [reflexivity|simpl; lia]. }
  rewrite exec_app. set (s1 := exec vm evs s0) in *.
  destruct Hopen as [Herr Hlen].
  pose proof (keep_tracing_no_error s1 Herr) as Hkeep.
  rewrite replies_cons in Hc2. inversion Hc2 as [|? ? Hc _]; subst.
  pose proof (handle_clean (AfterMessage result) s1 Hkeep Hc) as Htry.
  rewrite exec_cons. simpl exec.
  simpl in Htry. rewrite afterMessage_try_eq in Htry.
  destruct (_messageTraces s1) as [|root [|x l]] eqn:Hl; try discriminate.
  unfold innermost in Htry. rewrite Hl in Htry. simpl in Htry.
  destruct (heap s1 !! root) as [trace|] eqn:Hroot; [|discriminate].
  injection Htry as Htry.
  assert (Hen : _enabled s1 = true).
  { unfold s1. rewrite exec_enabled. reflexivity. }
  exists root, (completed result trace).
  unfold exec. simpl fst. rewrite <- Htry.
  unfold getLastTopLevelMessageTrace. simpl. rewrite Hen. simpl.
  split; [reflexivity|]. split; [reflexivity|].
  split; [apply list_lookup_insert_eq; eapply lookup_lt_Some; exact Hroot|].
  destruct trace; simpl; repeat split; intros c H;
    try discriminate; injection H as <-; reflexivity.
Qed.

(** C6, as the code has it: the query does not look at whether the
    [afterMessage] of the root has been handled; with the tracer enabled
    and the root the only open frame it succeeds before that event as it
    does after.  Once the [afterMessage] of the root has been handled,
    tracing going on, the root that the query returns has [error] and
    [returnData], and [deployedContract] if it is a [Create], from the
    result of that event. *)
Theorem root_populated_by_its_afterMessage s result (root : ref) trace
    (Hen : _enabled s = true)
    (Hkeep : _shouldKeepTracing s = true)
    (Hroot : _messageTraces s = [root])
    (Ht : heap s !! root = Some trace) :
  getLastTopLevelMessageTrace s = inr root /\
  getLastTopLevelMessageTrace (fst (_afterMessageHandler result s)) =
    inr root /\
  snd (_afterMessageHandler result s) = acknowledged /\
  exists trace',
    heap (fst (_afterMessageHandler result s)) !! root = Some trace' /\
    error trace' = exceptionError (execResult result) /\
    returnData trace' = returnValue (execResult result) /\
    isCreateTrace trace' = isCreateTrace trace /\
    (forall c, trace' = Create c ->
               create_deployedContract c = createdAddress result).
Proof.
  assert (Hin : innermost s = Some root).
  { unfold innermost. rewrite Hroot. reflexivity. }
  unfold _afterMessageHandler, try_catch. rewrite Hkeep. simpl.
  rewrite (afterMessage_try_frame result s root trace Hin Ht).
  rewrite Hroot. simpl.
  unfold getLastTopLevelMessageTrace. simpl. rewrite Hen, Hroot. simpl.
  split; [reflexivity|]. split; [reflexivity|]. split; [reflexivity|].
  exists (completed result trace).
  split; [apply list_lookup_insert_eq; eapply lookup_lt_Some; exact Ht|].
  destruct trace; simpl; repeat split; intros c H;
    try discriminate; injection H as <-; reflexivity.
Qed.

End Facts.

(** * Further properties of the handlers *)

Section Further.

Variable vm : VM.

(** ** Error-tolerant mode: the continuation and the first error *)


Lemma exec_dontThrowErrors evs s :
  _dontThrowErrors (exec vm evs s) = _dontThrowErrors s.
Proof.
  revert s. induction evs as [|ev evs IH]; intros s; [reflexivity|].
  rewrite exec_cons, IH. apply handle_flags.
Qed.

(** X1: in error-tolerant mode no handler ever gives an error to its
    continuation, whatever the tracer and the events: the VM is never
    stopped by the tracer. *)
Theorem tolerant_mode_never_aborts evs s
    (Hmode : _dontThrowErrors s = true) :
  Forall (fun reply => next_arg reply = None) (replies vm evs s).
Proof.
  revert s Hmode. induction evs as [|ev evs IH]; intros s Hmode.
  - constructor.
  - rewrite replies_cons. constructor.
    + apply (handle_tolerant vm ev s Hmode).
    + apply IH. destruct (handle_flags vm ev s) as [_ ->]. exact Hmode.
Qed.


(** ** What a handler that raised has done *)

Lemma try_catch_raised body s e :
  reported (snd (try_catch body s)) = Some e ->
  snd (body s) = inl e /\
  fst (try_catch body s) =
    (if _dontThrowErrors (fst (body s))
     then with_lastError (Some e) (fst (body s)) else fst (body s)).
Proof.
  unfold try_catch. destruct (body s) as [s' [e'|u]]; simpl.
  - destruct (_dontThrowErrors s'); simpl; intros H; injection H as ->;
      split; reflexivity.
  - discriminate.
Qed.

Lemma handle_raised ev s e :
  reported (snd (handle vm ev s)) = Some e ->
  _shouldKeepTracing s = true /\
  snd (try_of vm ev s) = inl e /\
  fst (handle vm ev s) =
    (if _dontThrowErrors s
     then with_lastError (Some e) (fst (try_of vm ev s))
     else fst (try_of vm ev s)).
Proof.
  rewrite handle_eq. destruct (_shouldKeepTracing s); [|discriminate].
  intros H. apply try_catch_raised in H as [H1 H2].
  destruct (try_of_fields vm ev s) as (_ & Hd & _).
  rewrite Hd in H2. auto.
Qed.

(** X3: a [step] or [afterMessage] handler that raises has changed
    nothing of the tracer before: in strict mode the tracer is as it was,
    in error-tolerant mode only the last error is new. *)
Theorem step_and_afterMessage_raise_before_mutating s e :
  (forall step,
     reported (snd (_stepHandler step s)) = Some e ->
     fst (_stepHandler step s) =
       (if _dontThrowErrors s then with_lastError (Some e) s else s)) /\
  (forall result,
     reported (snd (_afterMessageHandler result s)) = Some e ->
     fst (_afterMessageHandler result s) =
       (if _dontThrowErrors s then with_lastError (Some e) s else s)).
Proof.
  split.
  - intros step H.
    change (_stepHandler step s) with (handle vm (Step step) s) in *.
    destruct (handle_raised (Step step) s e H) as (_ & Hr & ->).
    simpl in *. rewrite step_try_eq in *.
    destruct (innermost s) as [r|]; [|reflexivity].
    destruct (heap s !! r) as [trace|]; [|reflexivity].
    destruct (isPrecompileTrace trace); [reflexivity|discriminate].
  - intros result H.
    change (_afterMessageHandler result s)
      with (handle vm (AfterMessage result) s) in *.
    destruct (handle_raised (AfterMessage result) s e H) as (_ & Hr & ->).
    simpl in *. rewrite afterMessage_try_eq in *.
    destruct (innermost s) as [r|]; [|reflexivity].
    destruct (heap s !! r) as [trace|]; [|reflexivity]. discriminate.
Qed.

(** The address whose code is looked up for a call. *)
Lemma trace_of_message_rejected message e :
  trace_of_message vm message = inl e ->
  exists target,
    to message = Some target /\
    _getContractCode vm
      (match _codeAddress message with
       | Some a => a
       | None => target
       end) = inl e.
Proof.
  unfold trace_of_message. intros H.
  destruct (to message) as [target|]; [|discriminate].
  destruct ((0 <? BN target) && (BN target <=? MAX_PRECOMPILE_NUMBER vm));
    [discriminate|].
  exists target. split; [reflexivity|].
  destruct (_getContractCode vm _) as [e'|]; [|discriminate].
  injection H as ->. reflexivity.
Qed.

Lemma innermost_allocated s r :
  refs_allocated s -> innermost s = Some r -> (r < length (heap s))%nat.
Proof.
  unfold refs_allocated, innermost. intros Ha Hr.
  apply last_Some_elem_of in Hr.
  rewrite Forall_forall in Ha. apply Ha, Hr.
Qed.

(** X4: the errors of the handlers, for a tracer whose open frames are
    objects of the store (every tracer that events have built).  A
    [beforeMessage] handler raises either the rejection of the code
    lookup of a call, or the diagnostic of a message under a precompile,
    the message being nested and the innermost frame a precompile.  A
    [step] handler raises either the [TypeError] of an empty list of
    traces or the diagnostic of a step in a precompile.  An [afterMessage]
    handler raises only the [TypeError] of an empty list. *)
Theorem handler_errors_classified ev s e
    (Halloc : refs_allocated s)
    (Hraised : reported (snd (handle vm ev s)) = Some e) :
  match ev with
  | BeforeMessage message =>
      (exists target,
         to message = Some target /\
         _getContractCode vm
           (match _codeAddress message with
            | Some a => a
            | None => target
            end) = inl e) \/
      (e = JsError msg_message_in_precompile /\
       depth message <> 0%nat /\
       exists r pt,
         innermost s = Some r /\ heap s !! r = Some (Precompile pt))
  | Step _ =>
      (e = TypeError /\ _messageTraces s = []) \/
      (e = JsError msg_step_in_precompile /\
       exists r pt,
         innermost s = Some r /\ heap s !! r = Some (Precompile pt))
  | AfterMessage _ =>
      e = TypeError /\ _messageTraces s = []
  end.
Proof.
  destruct (handle_raised ev s e Hraised) as (_ & Hr & _).
  destruct ev as [message|step|result]; simpl in Hr.
  - rewrite beforeMessage_try_start in Hr.
    destruct (trace_of_message vm message) as [e'|trace] eqn:Ht.
    { simpl in Hr. injection Hr as ->. left.
      apply trace_of_message_rejected, Ht. }
    cbv zeta in Hr. right.
    destruct (innermost _) as [p|] eqn:Hp; [|discriminate].
    unfold innermost in Hp. simpl in Hp.
    assert (Hd : depth message <> 0%nat).
    { intros Hd. rewrite (top_reset_top message s Hd) in Hp. discriminate. }
    rewrite (top_reset_nested message s Hd) in Hp.
    pose proof (innermost_allocated s p Halloc Hp) as Hlt.
    destruct (lookup_lt_is_Some_2 _ _ Hlt) as [parent Hpar].
    rewrite (lookup_app_l_Some _ _ _ _ Hpar) in Hr.
    destruct parent as [c|c|pt]; simpl in Hr; try discriminate.
    injection Hr as <-.
    split; [reflexivity|]. split; [exact Hd|]. eauto.
  - rewrite step_try_eq in Hr.
    destruct (innermost s) as [r|] eqn:Hin.
    + pose proof (innermost_allocated s r Halloc Hin) as Hlt.
      destruct (heap s !! r) as [trace|] eqn:Htr.
      2:{ apply lookup_ge_None in Htr. lia. }
      destruct trace as [c|c|pt]; simpl in Hr; try discriminate.
      injection Hr as <-. right. split; [reflexivity|]. eauto.
    + injection Hr as <-. left. split; [reflexivity|].
      apply last_None, Hin.
  - rewrite afterMessage_try_eq in Hr.
    destruct (innermost s) as [r|] eqn:Hin.
    + pose proof (innermost_allocated s r Halloc Hin) as Hlt.
      destruct (heap s !! r) as [trace|] eqn:Htr; [discriminate|].
      apply lookup_ge_None in Htr. lia.
    + injection Hr as <-. split; [reflexivity|]. apply last_None, Hin.
Qed.

(** X5: a top-level call whose code lookup fails loses the previous
    trace: the list of traces has been emptied before the lookup, so that
    the query fails with the error of a tracer that has handled no
    message, whatever trace it held before. *)
Theorem failed_top_level_call_loses_previous_trace s message target e
    (Hen : _enabled s = true)
    (Hkeep : _shouldKeepTracing s = true)
    (Hdepth : depth message = 0%nat)
    (Hto : to message = Some target)
    (Hrange : ~ 1 <= BN target <= Z.of_nat (precompiles_length vm) + 1)
    (Hlookup :
       _getContractCode vm
         (match _codeAddress message with
          | Some a => a
          | None => target
          end) = inl e) :
  reported (snd (_beforeMessageHandler vm message s)) = Some e /\
  _messageTraces (fst (_beforeMessageHandler vm message s)) = [] /\
  getLastTopLevelMessageTrace (fst (_beforeMessageHandler vm message s)) =
    inl (JsError msg_no_message).
Proof.
  assert (Ht : trace_of_message vm message = inl e).
  { unfold trace_of_message. rewrite Hto.
    destruct ((0 <? BN target) && (BN target <=? MAX_PRECOMPILE_NUMBER vm))
      eqn:E.
    - apply precompile_range_spec in E. contradiction.
    - rewrite Hlookup. reflexivity. }
  unfold _beforeMessageHandler, try_catch. rewrite Hkeep. simpl.
  rewrite beforeMessage_try_start, Ht, (top_reset_top message s Hdepth).
  simpl. unfold getLastTopLevelMessageTrace.
  destruct (_dontThrowErrors s); simpl; rewrite Hen; repeat split.
Qed.

(** ** The objects of the store over time *)

(** One event and one object: the object stays where it is, and only the
    innermost open frame is changed. *)
Lemma handle_lookup ev s (r : ref) trace :
  heap s !! r = Some trace ->
  exists trace',
    heap (fst (handle vm ev s)) !! r = Some trace' /\
    mutation trace trace' /\
    (innermost s = Some r \/ trace' = trace).
Proof.
  intros Hr. rewrite handle_eq.
  destruct (_shouldKeepTracing s).
  2:{ exists trace. split; [exact Hr|]. split; [constructor|auto]. }
  rewrite try_catch_heap.
  destruct ev as [message|step|result]; simpl.
  - rewrite beforeMessage_try_start.
    destruct (trace_of_message vm message) as [e|new_frame]; cbv zeta.
    { simpl. rewrite top_reset_heap. exists trace.
      split; [exact Hr|]. split; [constructor|auto]. }
    pose proof (lookup_app_l_Some _ [new_frame] _ _ Hr) as Hr'.
    destruct (innermost _) as [p|] eqn:Hp.
    2:{ simpl. exists trace. split; [exact Hr'|]. split; [constructor|auto]. }
    destruct ((heap s ++ [new_frame]) !! p) as [parent|] eqn:Hpar.
    2:{ simpl. exists trace. split; [exact Hr'|]. split; [constructor|auto]. }
    destruct (isPrecompileTrace parent) eqn:Hpre.
    { simpl. exists trace. split; [exact Hr'|]. split; [constructor|auto]. }
    simpl. destruct (decide (p = r)) as [->|Hne].
    + assert (Heq : Some parent = Some trace)
        by (rewrite <- Hpar; exact Hr').
      injection Heq as ->.
      exists (with_child (length (heap s)) trace).
      split; [apply list_lookup_insert_eq; eapply lookup_lt_Some, Hr'|].
      split; [constructor; exact Hpre|]. left.
      unfold innermost in *. simpl in Hp.
      destruct (top_reset_messageTraces message s) as [E|E]; rewrite E in Hp;
        [discriminate|exact Hp].
    + exists trace. rewrite list_lookup_insert_ne by exact Hne.
      split; [exact Hr'|]. split; [constructor|auto].
  - rewrite step_try_eq.
    destruct (innermost s) as [p|] eqn:Hp.
    2:{ exists trace. split; [exact Hr|]. split; [constructor|auto]. }
    destruct (heap s !! p) as [frame|] eqn:Hf.
    2:{ exists trace. split; [exact Hr|]. split; [constructor|auto]. }
    destruct (isPrecompileTrace frame) eqn:Hpre.
    { exists trace. split; [exact Hr|]. split; [constructor|auto]. }
    simpl. destruct (decide (p = r)) as [->|Hne].
    + assert (Heq : Some frame = Some trace)
        by (rewrite <- Hf; exact Hr).
      injection Heq as ->.
      exists (with_step (pc step) trace).
      split; [apply list_lookup_insert_eq; eapply lookup_lt_Some, Hr|].
      split; [constructor; exact Hpre|auto].
    + exists trace. rewrite list_lookup_insert_ne by exact Hne.
      split; [exact Hr|]. split; [constructor|auto].
  - rewrite afterMessage_try_eq.
    destruct (innermost s) as [p|] eqn:Hp.
    2:{ exists trace. split; [exact Hr|]. split; [constructor|auto]. }
    destruct (heap s !! p) as [frame|] eqn:Hf.
    2:{ exists trace. split; [exact Hr|]. split; [constructor|auto]. }
    simpl. destruct (decide (p = r)) as [->|Hne].
    + assert (Heq : Some frame = Some trace)
        by (rewrite <- Hf; exact Hr).
      injection Heq as ->.
      exists (completed result trace).
      split; [apply list_lookup_insert_eq; eapply lookup_lt_Some, Hr|].
      split; [constructor|auto].
    + exists trace. rewrite list_lookup_insert_ne by exact Hne.
      split; [exact Hr|]. split; [constructor|auto].
Qed.

Lemma mutation_blank trace trace' :
  mutation trace trace' -> blank trace' = blank trace.
Proof.
  intros H. destruct H; destruct trace; try reflexivity; discriminate.
Qed.

Lemma mutation_steps trace trace' l :
  mutation trace trace' -> steps trace = Some l ->
  exists k, steps trace' = Some (l ++ k).
Proof.
  intros H Hl.
  destruct H; destruct trace; simpl in *; try discriminate;
    injection Hl as <-;
    try (exists []; rewrite app_nil_r; reflexivity);
    eexists; unfold with_step; simpl; reflexivity.
Qed.

(** X6: an object of the store stays at its reference for ever, as the
    same variant with the fields it was built with ([code], [calldata],
    [address], [value], [depth], [precompile]); its [steps] only grow at
    the end. *)
Theorem frames_keep_identity_and_grow evs s (r : ref) trace
    (Hr : heap s !! r = Some trace) :
  exists trace',
    heap (exec vm evs s) !! r = Some trace' /\
    blank trace' = blank trace /\
    (forall l, steps trace = Some l ->
               exists k, steps trace' = Some (l ++ k)).
Proof.
  revert s trace Hr. induction evs as [|ev evs IH]; intros s trace Hr.
  - exists trace. split; [exact Hr|]. split; [reflexivity|].
    intros l Hl. exists []. rewrite app_nil_r. exact Hl.
  - rewrite exec_cons.
    destruct (handle_lookup ev s r trace Hr) as (t1 & H1 & Hm & _).
    destruct (IH _ _ H1) as (t2 & H2 & Hb & Hs).
    exists t2. split; [exact H2|].
    split; [rewrite Hb; apply mutation_blank, Hm|].
    intros l Hl.
    destruct (mutation_steps _ _ l Hm Hl) as [k1 Hk1].
    destruct (Hs _ Hk1) as [k2 Hk2].
    exists (k1 ++ k2). rewrite Hk2, app_assoc. reflexivity.
Qed.

Lemma handle_messageTraces ev s x :
  x ∈ _messageTraces (fst (handle vm ev s)) ->
  x ∈ _messageTraces s \/ x = length (heap s).
Proof.
  rewrite handle_eq.
  destruct (_shouldKeepTracing s); [|auto].
  rewrite try_catch_messageTraces.
  destruct ev as [message|step|result]; simpl.
  - assert (Hsub : x ∈ _messageTraces (top_reset message s) ->
                   x ∈ _messageTraces s).
    { destruct (top_reset_messageTraces message s) as [-> | ->];
        [intros H; inversion H|auto]. }
    rewrite beforeMessage_try_start.
    destruct (trace_of_message vm message) as [e|new_frame]; cbv zeta;
      [simpl; auto|].
    destruct (innermost _) as [p|].
    2:{ simpl. intros H. apply list_elem_of_singleton in H. auto. }
    destruct ((heap s ++ [new_frame]) !! p) as [parent|]; [|simpl; auto].
    destruct (isPrecompileTrace parent); [simpl; auto|]. simpl.
    intros H. apply elem_of_app in H as [H|H]; [auto|].
    apply list_elem_of_singleton in H. auto.
  - rewrite step_try_eq.
    destruct (innermost s) as [p|]; [|auto].
    destruct (heap s !! p) as [frame|]; [|auto].
    destruct (isPrecompileTrace frame); simpl; auto.
  - rewrite afterMessage_try_eq.
    destruct (innermost s) as [p|] eqn:Hp; [|auto].
    destruct (heap s !! p) as [frame|]; [|auto]. simpl.
    destruct (Nat.ltb 1 (length (_messageTraces s))); [|auto].
    destruct (innermost_snoc s p Hp) as [l Hl]. rewrite Hl.
    rewrite removelast_snoc. intros H. left. apply elem_of_app. auto.
Qed.

(** X7: a frame that is not open (it has been popped, or it belongs to a
    tree that a later top-level message discarded) is never changed
    again and never opened again. *)
Theorem closed_frames_are_immutable evs s (r : ref) trace
    (Hclosed : r ∉ _messageTraces s)
    (Hr : heap s !! r = Some trace) :
  heap (exec vm evs s) !! r = Some trace /\
  r ∉ _messageTraces (exec vm evs s).
Proof.
  revert s Hclosed Hr. induction evs as [|ev evs IH]; intros s Hclosed Hr.
  - auto.
  - rewrite exec_cons.
    destruct (handle_lookup ev s r trace Hr) as (t1 & H1 & _ & [Hin| ->]).
    { exfalso. apply Hclosed. unfold innermost in Hin.
      apply last_Some_elem_of, Hin. }
    apply IH; [|exact H1].
    intros H. apply handle_messageTraces in H as [H|H]; [auto|].
    apply lookup_lt_Some in Hr. lia.
Qed.

(** ** Nesting: the length of the list and the depths *)

(** X8: while a well-formed sequence of events is handled without an
    error by a new tracer, the list of traces holds one frame for each
    message that is open; when no message is open it holds at most the
    root of the last message. *)
Theorem open_messages_are_the_open_frames dontThrowErrors evs k
    (Hwf : well_nested 0 evs = Some k)
    (Hclean :
       Forall (fun reply => reported reply = None)
         (replies vm evs (enableTracing (new_VMTracer dontThrowErrors)))) :
  let s := exec vm evs (enableTracing (new_VMTracer dontThrowErrors)) in
  getLastError s = None /\
  (k <> 0%nat -> length (_messageTraces s) = k) /\
  (k = 0%nat -> (length (_messageTraces s) <= 1)%nat) /\
  (k = 0%nat -> evs <> [] -> length (_messageTraces s) = 1%nat).
Proof.
  intros s.
  assert (H0 : open_frames 0 (enableTracing (new_VMTracer dontThrowErrors)))
    by (split; [reflexivity|simpl; lia]).
  pose proof (exec_open_frames vm evs 0 k _ H0 Hwf Hclean) as [He Hl].
  fold s in He, Hl.
  split; [exact He|].
  split; [destruct k; [congruence|auto]|].
  split; [intros ->; exact Hl|].
  intros -> Hne.
  destruct (exists_last Hne) as (evs' & ev & ->).
  subst s. rewrite exec_app, replies_app in *.
  apply Forall_app in Hclean as [Hc1 Hc2].
  rewrite well_nested_app in Hwf.
  destruct (well_nested 0 evs') as [k1|] eqn:Hk1; [|discriminate].
  pose proof (exec_open_frames vm evs' 0 k1 _ H0 Hk1 Hc1) as [He1 Hl1].
  set (s1 := exec vm evs' (enableTracing (new_VMTracer dontThrowErrors))) in *.
  rewrite replies_cons in Hc2. inversion Hc2 as [|? ? Hc _]; subst.
  pose proof (handle_clean vm ev s1 (keep_tracing_no_error s1 He1) Hc) as Htry.
  rewrite exec_cons. simpl exec. apply (f_equal fst) in Htry.
  simpl in Htry. rewrite <- Htry.
  destruct ev as [message|step|result]; simpl in Hwf.
  - destruct (Nat.eqb (depth message) k1); discriminate.
  - destruct k1; discriminate.
  - destruct k1 as [|[|k1]]; try discriminate.
    simpl in Hl1. simpl. rewrite afterMessage_try_eq.
    destruct (innermost s1) as [r|]; [|exact Hl1].
    destruct (heap s1 !! r) as [trace|]; [|exact Hl1].
    simpl. rewrite Hl1. simpl. exact Hl1.
Qed.

Lemma blank_depth_of trace trace' :
  blank trace' = blank trace -> depth_of trace' = depth_of trace.
Proof.
  destruct trace, trace'; simpl; intros H; try discriminate;
    injection H; intros; assumption.
Qed.

Lemma with_child_steps c trace l' x :
  steps (with_child c trace) = Some l' -> SubTrace x ∈ l' ->
  (exists l, steps trace = Some l /\ SubTrace x ∈ l) \/ x = c.
Proof.
  destruct trace as [t|t|t]; simpl; intros Hl Hx; try discriminate;
    injection Hl as <-; apply elem_of_app in Hx as [Hx|Hx];
    try (left; eexists; split; [reflexivity|exact Hx]);
    apply list_elem_of_singleton in Hx; injection Hx as ->; auto.
Qed.

Lemma with_step_steps n trace l' x :
  steps (with_step n trace) = Some l' -> SubTrace x ∈ l' ->
  exists l, steps trace = Some l /\ SubTrace x ∈ l.
Proof.
  destruct trace as [t|t|t]; unfold with_step; simpl; intros Hl Hx;
    try discriminate;
    injection Hl as <-; apply elem_of_app in Hx as [Hx|Hx];
    try (eexists; split; [reflexivity|exact Hx]);
    apply list_elem_of_singleton in Hx; discriminate.
Qed.

Lemma completed_steps result trace :
  steps (completed result trace) = steps trace.
Proof. destruct trace; reflexivity. Qed.

Lemma child_depths_insert h (r : ref) trace trace' :
  h !! r = Some trace ->
  depth_of trace' = depth_of trace ->
  (forall l' c,
     steps trace' = Some l' -> SubTrace c ∈ l' ->
     (exists l, steps trace = Some l /\ SubTrace c ∈ l) \/
     (exists child,
        h !! c = Some child /\ depth_of child = S (depth_of trace) /\
        c <> r)) ->
  child_depths h -> child_depths (<[r := trace']> h).
Proof.
  intros Hr Hd Hsteps Hcd p c parent l Hp Hl Hc.
  pose proof (lookup_lt_Some _ _ _ Hr) as Hlt.
  assert (Hold : forall (x : ref) child,
            h !! x = Some child ->
            exists child', <[r := trace']> h !! x = Some child' /\
                           depth_of child' = depth_of child).
  { intros x child Hx. destruct (decide (r = x)) as [<-|Hne].
    - exists trace'. split; [apply list_lookup_insert_eq, Hlt|].
      assert (Heq : Some child = Some trace) by (rewrite <- Hx; exact Hr).
      injection Heq as ->. exact Hd.
    - exists child. rewrite list_lookup_insert_ne by exact Hne. auto. }
  destruct (decide (r = p)) as [<-|Hne].
  - rewrite list_lookup_insert_eq in Hp by exact Hlt. injection Hp as <-.
    rewrite Hd.
    destruct (Hsteps l c Hl Hc) as [(l0 & Hl0 & Hc0)|(child & Hx & Hdc & Hne)].
    + destruct (Hcd r c trace l0 Hr Hl0 Hc0) as (child & Hx & Hdc).
      destruct (Hold c child Hx) as (child' & Hx' & Hd').
      exists child'. split; [exact Hx'|congruence].
    + exists child. rewrite list_lookup_insert_ne by congruence. auto.
  - rewrite list_lookup_insert_ne in Hp by exact Hne.
    destruct (Hcd p c parent l Hp Hl Hc) as (child & Hx & Hdc).
    destruct (Hold c child Hx) as (child' & Hx' & Hd').
    exists child'. split; [exact Hx'|congruence].
Qed.

Lemma child_depths_app h trace :
  steps_below 0 trace -> child_depths h -> child_depths (h ++ [trace]).
Proof.
  intros Hnew Hcd p c parent l Hp Hl Hc.
  destruct (decide (p < length h)%nat) as [Hlt|Hge].
  - rewrite lookup_app_l in Hp by exact Hlt.
    destruct (Hcd p c parent l Hp Hl Hc) as (child & Hx & Hdc).
    exists child. split; [apply lookup_app_l_Some, Hx|exact Hdc].
  - rewrite lookup_app_r in Hp by lia.
    destruct (p - length h)%nat; simpl in Hp; [|discriminate].
    injection Hp as <-. specialize (Hnew l c Hl Hc). lia.
Qed.

Lemma handle_depths ev k k' s :
  open_frames k s ->
  depth_indexed s ->
  child_depths (heap s) ->
  well_nested k [ev] = Some k' ->
  reported (snd (handle vm ev s)) = None ->
  depth_indexed (fst (handle vm ev s)) /\
  child_depths (heap (fst (handle vm ev s))).
Proof.
  unfold depth_indexed. intros [Herr Hlen] Hdi Hcd Hwf Hclean.
  pose proof (keep_tracing_no_error s Herr) as Hkeep.
  pose proof (handle_clean vm ev s Hkeep Hclean) as Htry.
  remember (fst (handle vm ev s)) as s' eqn:Es'. clear Es' Hclean.
  destruct ev as [message|step|result]; simpl in Htry, Hwf.
  - destruct (Nat.eqb_spec (depth message) k) as [Hd|]; [|discriminate].
    rewrite beforeMessage_try_start in Htry.
    destruct (trace_of_message vm message) as [e|trace] eqn:Ht;
      [discriminate|].
    cbv zeta in Htry. unfold innermost in Htry. simpl in Htry.
    pose proof (trace_of_message_depth vm _ _ Ht) as Hdepth.
    pose proof (trace_of_message_below vm _ _ 0%nat Ht) as Hnew.
    assert (Hat : (heap s ++ [trace]) !! length (heap s) = Some trace).
    { rewrite lookup_app_r by lia. rewrite Nat.sub_diag. reflexivity. }
    destruct k as [|k].
    + rewrite (top_reset_top message s Hd) in Htry. simpl in Htry.
      injection Htry as <-. simpl. split.
      * intros i r Hi. destruct i as [|i]; simpl in Hi; [|discriminate].
        injection Hi as <-. exists trace. split; [exact Hat|congruence].
      * apply child_depths_app; assumption.
    + rewrite (top_reset_nested message s) in Htry by lia.
      destruct (last (_messageTraces s)) as [p|] eqn:Hp.
      2:{ apply last_None in Hp. rewrite Hp in Hlen. discriminate. }
      assert (Hpk : _messageTraces s !! k = Some p).
      { rewrite last_lookup, Hlen in Hp. exact Hp. }
      destruct (Hdi k p Hpk) as (parent & Hpar & Hpd).
      rewrite (lookup_app_l_Some _ _ _ _ Hpar) in Htry.
      destruct (isPrecompileTrace parent); [discriminate|].
      injection Htry as <-. simpl.
      pose proof (lookup_lt_Some _ _ _ Hpar) as Hplt.
      assert (Hwd : depth_of (with_child (length (heap s)) parent) =
                    depth_of parent) by (destruct parent; reflexivity).
      split.
      * intros i r Hi. simpl in Hi.
        destruct (decide (i < length (_messageTraces s))%nat) as [Hlt|Hge].
        -- rewrite lookup_app_l in Hi by exact Hlt.
           destruct (Hdi i r Hi) as (t & Hr & Hrd).
           destruct (decide (p = r)) as [<-|Hne].
           ++ exists (with_child (length (heap s)) parent).
              split; [apply list_lookup_insert_eq; rewrite length_app; lia|].
              assert (Heq : Some t = Some parent)
                by (rewrite <- Hr; exact Hpar).
              injection Heq as ->. congruence.
           ++ exists t. rewrite list_lookup_insert_ne by exact Hne.
              split; [apply lookup_app_l_Some, Hr|exact Hrd].
        -- rewrite lookup_app_r in Hi by lia.
           destruct (i - length (_messageTraces s))%nat eqn:Hi0;
             simpl in Hi; [|discriminate].
           injection Hi as <-. exists trace.
           rewrite list_lookup_insert_ne by lia.
           split; [exact Hat|]. lia.
      * apply child_depths_insert with (trace := parent).
        -- apply lookup_app_l_Some, Hpar.
        -- exact Hwd.
        -- intros l' c Hl' Hc.
           destruct (with_child_steps _ _ _ _ Hl' Hc) as [H| ->]; [auto|].
           right. exists trace. split; [exact Hat|]. split; [lia|lia].
        -- apply child_depths_app; assumption.
  - destruct k as [|k]; [discriminate|].
    rewrite step_try_eq in Htry.
    destruct (innermost s) as [r|]; [|discriminate].
    destruct (heap s !! r) as [trace|] eqn:Hr; [|discriminate].
    destruct (isPrecompileTrace trace); [discriminate|].
    injection Htry as <-. simpl.
    assert (Hwd : depth_of (with_step (pc step) trace) = depth_of trace)
      by (destruct trace; reflexivity).
    pose proof (lookup_lt_Some _ _ _ Hr) as Hlt.
    split.
    + intros i x Hi. destruct (Hdi i x Hi) as (t & Hx & Hxd).
      destruct (decide (r = x)) as [<-|Hne].
      * exists (with_step (pc step) trace).
        split; [apply list_lookup_insert_eq, Hlt|].
        assert (Heq : Some t = Some trace) by (rewrite <- Hx; exact Hr).
        injection Heq as ->. congruence.
      * exists t. rewrite list_lookup_insert_ne by exact Hne. auto.
    + apply child_depths_insert with (trace := trace);
        [exact Hr|exact Hwd| |exact Hcd].
      intros l' c Hl' Hc. left. eapply with_step_steps; eassumption.
  - destruct k as [|k]; [discriminate|].
    rewrite afterMessage_try_eq in Htry.
    destruct (innermost s) as [r|] eqn:Hin; [|discriminate].
    destruct (heap s !! r) as [trace|] eqn:Hr; [|discriminate].
    injection Htry as <-. simpl.
    assert (Hwd : depth_of (completed result trace) = depth_of trace)
      by (destruct trace; reflexivity).
    pose proof (lookup_lt_Some _ _ _ Hr) as Hlt.
    split.
    + intros i x Hi.
      assert (Hi' : _messageTraces s !! i = Some x).
      { destruct (Nat.ltb 1 (length (_messageTraces s))); [|exact Hi].
        destruct (innermost_snoc s r Hin) as [l Hl]. rewrite Hl in *.
        rewrite removelast_snoc in Hi. apply lookup_app_l_Some, Hi. }
      destruct (Hdi i x Hi') as (t & Hx & Hxd).
      destruct (decide (r = x)) as [<-|Hne].
      * exists (completed result trace).
        split; [apply list_lookup_insert_eq, Hlt|].
        assert (Heq : Some t = Some trace) by (rewrite <- Hx; exact Hr).
        injection Heq as ->. congruence.
      * exists t. rewrite list_lookup_insert_ne by exact Hne. auto.
    + apply child_depths_insert with (trace := trace);
        [exact Hr|exact Hwd| |exact Hcd].
      intros l' c Hl' Hc. left. rewrite completed_steps in Hl'. eauto.
Qed.

(** X9: while a well-formed sequence of events is handled without an
    error by a new tracer, the open frame at position [i] of the list of
    traces has depth [i] (the root has depth 0), and every sub-trace in
    the store has the depth of the frame that holds it plus one. *)
Theorem depths_are_nesting_levels dontThrowErrors evs k
    (Hwf : well_nested 0 evs = Some k)
    (Hclean :
       Forall (fun reply => reported reply = None)
         (replies vm evs (enableTracing (new_VMTracer dontThrowErrors)))) :
  depth_indexed (exec vm evs (enableTracing (new_VMTracer dontThrowErrors))) /\
  child_depths
    (heap (exec vm evs (enableTracing (new_VMTracer dontThrowErrors)))).
Proof.
  assert (H0 : open_frames 0 (enableTracing (new_VMTracer dontThrowErrors)))
    by (split; [reflexivity|simpl; lia]).
  assert (H1 : depth_indexed (enableTracing (new_VMTracer dontThrowErrors)))
    by (intros i r Hi; destruct i; discriminate).
  assert (H2 : child_depths
                 (heap (enableTracing (new_VMTracer dontThrowErrors))))
    by (intros p c parent l Hp; destruct p; discriminate).
  revert H0 H1 H2 Hwf Hclean.
  generalize (enableTracing (new_VMTracer dontThrowErrors)) as s.
  generalize 0%nat as k0.
  induction evs as [|ev evs IH]; intros k0 s H0 H1 H2 Hwf Hclean.
  - auto.
  - rewrite exec_cons. rewrite replies_cons in Hclean.
    inversion Hclean as [|? ? Hc1 Hc2]; subst.
    change (ev :: evs) with ([ev] ++ evs) in Hwf.
    rewrite well_nested_app in Hwf.
    destruct (well_nested k0 [ev]) as [k1|] eqn:Hk1; [|discriminate].
    destruct (handle_depths ev k0 k1 s H0 H1 H2 Hk1 Hc1) as [H1' H2'].
    apply (IH k1); try assumption.
    eapply handle_open_frames; eassumption.
Qed.

(** ** The store is a forest *)

Lemma children_later_insert h (r : ref) trace trace' :
  h !! r = Some trace ->
  (forall l' c,
     steps trace' = Some l' -> SubTrace c ∈ l' ->
     (exists l, steps trace = Some l /\ SubTrace c ∈ l) \/ (r < c)%nat) ->
  children_later h -> children_later (<[r := trace']> h).
Proof.
  intros Hr Hsteps Hcl p c parent l Hp Hl Hc.
  pose proof (lookup_lt_Some _ _ _ Hr) as Hlt.
  destruct (decide (r = p)) as [<-|Hne].
  - rewrite list_lookup_insert_eq in Hp by exact Hlt. injection Hp as <-.
    destruct (Hsteps l c Hl Hc) as [(l0 & Hl0 & Hc0)|H]; [|exact H].
    exact (Hcl r c trace l0 Hr Hl0 Hc0).
  - rewrite list_lookup_insert_ne in Hp by exact Hne.
    exact (Hcl p c parent l Hp Hl Hc).
Qed.

Lemma children_later_app h trace :
  steps_below 0 trace -> children_later h -> children_later (h ++ [trace]).
Proof.
  intros Hnew Hcl p c parent l Hp Hl Hc.
  destruct (decide (p < length h)%nat) as [Hlt|Hge].
  - rewrite lookup_app_l in Hp by exact Hlt.
    exact (Hcl p c parent l Hp Hl Hc).
  - rewrite lookup_app_r in Hp by lia.
    destruct (p - length h)%nat; simpl in Hp; [|discriminate].
    injection Hp as <-. specialize (Hnew l c Hl Hc). lia.
Qed.

Lemma handle_children_later ev s :
  refs_allocated s ->
  children_later (heap s) ->
  children_later (heap (fst (handle vm ev s))).
Proof.
  intros Halloc Hcl. rewrite handle_eq.
  destruct (_shouldKeepTracing s); [|exact Hcl].
  rewrite try_catch_heap.
  destruct ev as [message|step|result]; simpl.
  - rewrite beforeMessage_try_start.
    destruct (trace_of_message vm message) as [e|trace] eqn:Ht; cbv zeta.
    { simpl. rewrite top_reset_heap. exact Hcl. }
    pose proof (trace_of_message_below vm _ _ 0%nat Ht) as Hnew.
    pose proof (children_later_app _ _ Hnew Hcl) as Hcl'.
    destruct (innermost _) as [p|] eqn:Hp; [|exact Hcl'].
    destruct ((heap s ++ [trace]) !! p) as [parent|] eqn:Hpar; [|exact Hcl'].
    destruct (isPrecompileTrace parent); [exact Hcl'|]. simpl.
    assert (Hlt : (p < length (heap s))%nat).
    { unfold innermost in Hp. simpl in Hp. apply last_Some_elem_of in Hp.
      destruct (top_reset_messageTraces message s) as [E|E];
        rewrite E in Hp; [inversion Hp|].
      unfold refs_allocated in Halloc. rewrite Forall_forall in Halloc.
      apply Halloc, Hp. }
    apply children_later_insert with (trace := parent);
      [exact Hpar| |exact Hcl'].
    intros l' c Hl' Hc.
    destruct (with_child_steps _ _ _ _ Hl' Hc) as [H| ->]; auto.
  - rewrite step_try_eq.
    destruct (innermost s) as [r|]; [|exact Hcl].
    destruct (heap s !! r) as [trace|] eqn:Hr; [|exact Hcl].
    destruct (isPrecompileTrace trace); [exact Hcl|]. simpl.
    apply children_later_insert with (trace := trace);
      [exact Hr| |exact Hcl].
    intros l' c Hl' Hc. left. eapply with_step_steps; eassumption.
  - rewrite afterMessage_try_eq.
    destruct (innermost s) as [r|]; [|exact Hcl].
    destruct (heap s !! r) as [trace|] eqn:Hr; [|exact Hcl]. simpl.
    apply children_later_insert with (trace := trace);
      [exact Hr| |exact Hcl].
    intros l' c Hl' Hc. left. rewrite completed_steps in Hl'. eauto.
Qed.

(** X10: in the store built by any sequence of events, a sub-trace is
    always an object built after the frame that holds it, and it exists:
    following sub-traces never comes back to a frame, so that the traces
    are finite trees. *)
Theorem subtraces_are_later_objects dontThrowErrors evs
    (p c : ref) parent l :
  let s := exec vm evs (enableTracing (new_VMTracer dontThrowErrors)) in
  heap s !! p = Some parent ->
  steps parent = Some l ->
  SubTrace c ∈ l ->
  (p < c < length (heap s))%nat.
Proof.
  intros s Hp Hl Hc.
  destruct (new_VMTracer_invariants dontThrowErrors) as (_ & H2 & H3).
  pose proof (exec_heap_closed vm evs _ H2) as Hclosed. fold s in Hclosed.
  split.
  - assert (H : children_later (heap s)); [|exact (H p c parent l Hp Hl Hc)].
    subst s. clear Hp Hclosed. revert H3.
    assert (H1 : children_later
                   (heap (enableTracing (new_VMTracer dontThrowErrors))))
      by (intros p' c' parent' l' Hp'; destruct p'; discriminate).
    revert H1. generalize (enableTracing (new_VMTracer dontThrowErrors)) as s.
    induction evs as [|ev evs IH]; intros s H1 H3; [exact H1|].
    rewrite exec_cons. apply IH.
    + apply handle_children_later; assumption.
    + apply handle_refs_allocated, H3.
  - unfold heap_closed in Hclosed.
    exact (Forall_lookup_1 _ _ _ _ Hclosed Hp l c Hl Hc).
Qed.

Lemma subtrace_refs_snoc l x :
  subtrace_refs (l ++ [x]) =
  subtrace_refs l ++ match x with SubTrace c => [c] | EvmStep _ => [] end.
Proof.
  unfold subtrace_refs. rewrite omap_app. destruct x; reflexivity.
Qed.

Lemma subtrace_refs_elem c l : c ∈ subtrace_refs l <-> SubTrace c ∈ l.
Proof.
  unfold subtrace_refs. rewrite list_elem_of_omap. split.
  - intros (x & Hx & Hc). destruct x; [discriminate|].
    injection Hc as ->. exact Hx.
  - intros H. exists (SubTrace c). auto.
Qed.

Lemma child_refs_with_child c trace :
  isPrecompileTrace trace = false ->
  child_refs (with_child c trace) = child_refs trace ++ [c].
Proof.
  destruct trace; simpl; intros H; try discriminate;
    unfold child_refs; simpl; apply subtrace_refs_snoc.
Qed.

Lemma child_refs_with_step n trace :
  child_refs (with_step n trace) = child_refs trace.
Proof.
  destruct trace; unfold with_step, child_refs; simpl; try reflexivity;
    rewrite subtrace_refs_snoc; apply app_nil_r.
Qed.

Lemma child_refs_completed result trace :
  child_refs (completed result trace) = child_refs trace.
Proof. destruct trace; reflexivity. Qed.

Lemma all_child_refs_app h trace :
  all_child_refs (h ++ [trace]) = all_child_refs h ++ child_refs trace.
Proof.
  unfold all_child_refs. rewrite map_app, concat_app. simpl.
  rewrite app_nil_r. reflexivity.
Qed.

Lemma all_child_refs_insert h (r : ref) trace trace' :
  h !! r = Some trace ->
  all_child_refs h =
    all_child_refs (take r h) ++ child_refs trace ++
    all_child_refs (drop (S r) h) /\
  all_child_refs (<[r := trace']> h) =
    all_child_refs (take r h) ++ child_refs trace' ++
    all_child_refs (drop (S r) h).
Proof.
  intros Hr. pose proof (lookup_lt_Some _ _ _ Hr) as Hlt.
  split.
  - rewrite <- (take_drop_middle h r trace Hr) at 1.
    unfold all_child_refs. rewrite map_app, concat_app. reflexivity.
  - rewrite insert_take_drop by exact Hlt.
    unfold all_child_refs. rewrite map_app, concat_app. reflexivity.
Qed.

Lemma all_child_refs_below n h c :
  Forall (steps_below n) h -> c ∈ all_child_refs h -> (c < n)%nat.
Proof.
  intros Hall Hc. unfold all_child_refs in Hc.
  apply list_elem_of_In, in_concat in Hc as (refs & Hrefs & Hc).
  apply in_map_iff in Hrefs as (trace & <- & Htrace).
  apply list_elem_of_In in Hc, Htrace.
  rewrite Forall_forall in Hall. specialize (Hall trace Htrace).
  unfold child_refs in Hc.
  destruct (steps trace) as [l|] eqn:Hl; [|inversion Hc].
  apply subtrace_refs_elem in Hc. exact (Hall l c Hl Hc).
Qed.

Lemma child_refs_new message trace :
  trace_of_message vm message = inr trace -> child_refs trace = [].
Proof.
  unfold trace_of_message. intros H.
  destruct (to message) as [a|].
  - destruct ((0 <? BN a) && (BN a <=? MAX_PRECOMPILE_NUMBER vm)).
    + injection H as <-. reflexivity.
    + destruct (_getContractCode vm _); [discriminate|].
      injection H as <-. reflexivity.
  - injection H as <-. reflexivity.
Qed.

Lemma Permutation_insert_snoc {A} (a b c : list A) (x : A) :
  a ++ (b ++ [x]) ++ c ≡ₚ x :: a ++ b ++ c.
Proof.
  symmetry. etransitivity; [apply Permutation_middle|].
  apply Permutation_app_head.
  etransitivity; [apply Permutation_middle|].
  rewrite <- app_assoc. reflexivity.
Qed.

Lemma handle_child_refs_NoDup ev s :
  heap_closed s ->
  NoDup (all_child_refs (heap s)) ->
  NoDup (all_child_refs (heap (fst (handle vm ev s)))).
Proof.
  intros Hclosed Hnd. rewrite handle_eq.
  destruct (_shouldKeepTracing s); [|exact Hnd].
  rewrite try_catch_heap.
  destruct ev as [message|step|result]; simpl.
  - rewrite beforeMessage_try_start.
    destruct (trace_of_message vm message) as [e|trace] eqn:Ht; cbv zeta.
    { simpl. rewrite top_reset_heap. exact Hnd. }
    assert (Hnd' : NoDup (all_child_refs (heap s ++ [trace]))).
    { rewrite all_child_refs_app, (child_refs_new _ _ Ht), app_nil_r.
      exact Hnd. }
    assert (Hfresh : length (heap s) ∉ all_child_refs (heap s ++ [trace])).
    { rewrite all_child_refs_app, (child_refs_new _ _ Ht), app_nil_r.
      intros H. apply (all_child_refs_below _ _ _ Hclosed) in H. lia. }
    destruct (innermost _) as [p|]; [|exact Hnd'].
    destruct ((heap s ++ [trace]) !! p) as [parent|] eqn:Hpar; [|exact Hnd'].
    destruct (isPrecompileTrace parent) eqn:Hpre; [exact Hnd'|]. simpl.
    destruct (all_child_refs_insert _ p parent
                (with_child (length (heap s)) parent) Hpar) as [E1 E2].
    rewrite E2, (child_refs_with_child _ _ Hpre).
    rewrite E1 in Hnd', Hfresh.
    rewrite Permutation_insert_snoc. apply NoDup_cons_2; assumption.
  - rewrite step_try_eq.
    destruct (innermost s) as [r|]; [|exact Hnd].
    destruct (heap s !! r) as [trace|] eqn:Hr; [|exact Hnd].
    destruct (isPrecompileTrace trace); [exact Hnd|]. simpl.
    destruct (all_child_refs_insert _ r trace
                (with_step (pc step) trace) Hr) as [E1 E2].
    rewrite E2, child_refs_with_step, <- E1. exact Hnd.
  - rewrite afterMessage_try_eq.
    destruct (innermost s) as [r|]; [|exact Hnd].
    destruct (heap s !! r) as [trace|] eqn:Hr; [|exact Hnd]. simpl.
    destruct (all_child_refs_insert _ r trace
                (completed result trace) Hr) as [E1 E2].
    rewrite E2, child_refs_completed, <- E1. exact Hnd.
Qed.

(** X11: in the store built by any sequence of events, no object is a
    sub-trace twice: a frame is attached to one parent at most, and once
    in its [steps]. *)
Theorem subtraces_have_one_parent dontThrowErrors evs :
  NoDup (all_child_refs
           (heap (exec vm evs (enableTracing (new_VMTracer dontThrowErrors))))).
Proof.
  destruct (new_VMTracer_invariants dontThrowErrors) as (_ & H2 & _).
  assert (H1 : NoDup (all_child_refs
                        (heap (enableTracing (new_VMTracer dontThrowErrors)))))
    by constructor.
  revert H1 H2. generalize (enableTracing (new_VMTracer dontThrowErrors)) as s.
  induction evs as [|ev evs IH]; intros s H1 H2; [exact H1|].
  rewrite exec_cons. apply IH.
  - apply handle_child_refs_NoDup; assumption.
  - apply handle_heap_closed, H2.
Qed.

(** ** A run of steps *)

Lemma with_steps_nil trace : with_steps [] trace = trace.
Proof. destruct trace as [[]|[]|[]]; simpl; rewrite ?app_nil_r; reflexivity. Qed.

Lemma with_steps_with_step n l trace :
  with_steps l (with_step n trace) = with_steps (EvmStep n :: l) trace.
Proof.
  destruct trace; unfold with_step; simpl; try reflexivity;
    rewrite <- app_assoc; reflexivity.
Qed.

Lemma with_step_not_precompile n trace :
  isPrecompileTrace (with_step n trace) = isPrecompileTrace trace.
Proof. destruct trace; reflexivity. Qed.

(** X12: the steps of a run of [step] events, handled while a [Create] or
    a [Call] is the innermost open frame, are appended to the [steps] of
    that frame in the order of the events; nothing else changes, no other
    object, and every continuation is called without an error. *)
Theorem steps_are_recorded_in_order interpreter_steps s (r : ref) trace
    (Hkeep : _shouldKeepTracing s = true)
    (Hr : innermost s = Some r)
    (Ht : heap s !! r = Some trace)
    (Hnp : isPrecompileTrace trace = false) :
  run vm (map Step interpreter_steps) s =
  (with_heap
     (<[r := with_steps (map (fun st => EvmStep (pc st)) interpreter_steps)
               trace]> (heap s)) s,
   replicate (length interpreter_steps) acknowledged).
Proof.
  revert s trace Hkeep Hr Ht Hnp.
  induction interpreter_steps as [|st sts IH]; intros s trace Hkeep Hr Ht Hnp.
  - simpl. rewrite with_steps_nil.
    assert (E : <[r := trace]> (heap s) = heap s)
      by (apply list_insert_id; exact Ht).
    unfold ref in *. rewrite E. destruct s; reflexivity.
  - simpl run. unfold _stepHandler, try_catch. rewrite Hkeep. simpl negb.
    cbv iota. rewrite (step_try_push st s r trace Hr Ht Hnp).
    pose proof (lookup_lt_Some _ _ _ Ht) as Hlt.
    rewrite (IH _ (with_step (pc st) trace)).
    + simpl. rewrite list_insert_insert_eq, with_steps_with_step.
      reflexivity.
    + exact Hkeep.
    + exact Hr.
    + simpl. apply list_lookup_insert_eq, Hlt.
    + rewrite with_step_not_precompile. exact Hnp.
Qed.

(** ** Targets that are precompiles *)

Lemma BN_snoc a x : BN (a ++ [x]) = 256 * BN a + Z.of_N (Byte.to_N x).
Proof. unfold BN. rewrite fold_left_app. reflexivity. Qed.

Lemma byte_range x : 0 <= Z.of_N (Byte.to_N x) <= 255.
Proof. pose proof (Byte.to_N_bounded x). lia. Qed.

Lemma BN_nonneg a : 0 <= BN a.
Proof.
  induction a as [|x a IH] using rev_ind; [reflexivity|].
  rewrite BN_snoc. pose proof (byte_range x). lia.
Qed.

Lemma byte_zero x : Z.of_N (Byte.to_N x) = 0 -> x = Byte.x00.
Proof.
  intros H. assert (E : Byte.to_N x = Byte.to_N Byte.x00) by (simpl; lia).
  pose proof (Byte.of_to_N x) as H1. rewrite E, Byte.of_to_N in H1.
  congruence.
Qed.

Lemma BN_zero a : BN a = 0 <-> Forall (fun b => b = Byte.x00) a.
Proof.
  induction a as [|x a IH] using rev_ind.
  - split; [constructor|reflexivity].
  - rewrite BN_snoc, Forall_app, Forall_singleton.
    pose proof (byte_range x). pose proof (BN_nonneg a). split.
    + intros H1. split; [apply IH; lia|apply byte_zero; lia].
    + intros [Ha ->]. apply IH in Ha. rewrite Ha. reflexivity.
Qed.

Lemma new_trace_precompile_iff message s target :
  to message = Some target ->
  (exists pt,
     new_trace vm message s =
       (with_heap (heap s ++ [Precompile pt]) s, inr (length (heap s)))) <->
  1 <= BN target <= Z.of_nat (precompiles_length vm) + 1.
Proof.
  intros Hto.
  destruct (trace_of_message_target vm message target Hto) as [Hin Hout].
  rewrite new_trace_eq. split.
  - intros [pt H].
    destruct (trace_of_message vm message) as [e|trace] eqn:Ht;
      [discriminate|].
    injection H as H. apply app_inv_head in H. injection H as ->.
    apply (trace_of_message_class vm message target _ Hto Ht). reflexivity.
  - intros H. rewrite (Hin H). eexists. reflexivity.
Qed.

(** X13: with fewer than 255 precompiled contracts, a message is
    classified as a precompile exactly when its target is zero bytes
    followed by one byte between 1 and the number of precompiles plus 1,
    whatever the length of the target; the 20-byte form of a precompile
    address is recognised like its one-byte form. *)
Theorem precompile_targets_are_padded_small_bytes message s a x
    (Hto : to message = Some (a ++ [x]))
    (Hsmall : Z.of_nat (precompiles_length vm) + 1 < 256) :
  (exists pt,
     new_trace vm message s =
       (with_heap (heap s ++ [Precompile pt]) s, inr (length (heap s)))) <->
  (Forall (fun b => b = Byte.x00) a /\
   1 <= Z.of_N (Byte.to_N x) <= Z.of_nat (precompiles_length vm) + 1).
Proof.
  rewrite (new_trace_precompile_iff message s _ Hto), BN_snoc.
  pose proof (byte_range x). pose proof (BN_nonneg a).
  rewrite <- BN_zero. split.
  - intros H1. assert (BN a = 0) by lia. split; [assumption|lia].
  - intros [-> H1]. lia.
Qed.

(** ** The same events on the same trace elsewhere in the store *)

Lemma shift_isPrecompileTrace n trace :
  isPrecompileTrace (shift n trace) = isPrecompileTrace trace.
Proof. destruct trace; reflexivity. Qed.

Lemma shift_with_step n k trace :
  with_step k (shift n trace) = shift n (with_step k trace).
Proof.
  destruct trace; unfold with_step; simpl; try reflexivity;
    rewrite fmap_app; reflexivity.
Qed.

Lemma shift_with_child (n c : nat) trace :
  with_child (n + c)%nat (shift n trace) = shift n (with_child c trace).
Proof.
  destruct trace; simpl; try reflexivity; rewrite fmap_app; reflexivity.
Qed.

Lemma shift_completed n result trace :
  completed result (shift n trace) = shift n (completed result trace).
Proof. destruct trace; reflexivity. Qed.

Lemma shift_new n message trace :
  trace_of_message vm message = inr trace -> shift n trace = trace.
Proof.
  unfold trace_of_message. intros H.
  destruct (to message) as [a|].
  - destruct ((0 <? BN a) && (BN a <=? MAX_PRECOMPILE_NUMBER vm)).
    + injection H as <-. reflexivity.
    + destruct (_getContractCode vm _); [discriminate|].
      injection H as <-. reflexivity.
  - injection H as <-. reflexivity.
Qed.

Lemma relocate_lookup pre e s (r : ref) :
  heap (relocate pre e s) !! (length pre + r)%nat =
  shift (length pre) <$> heap s !! r.
Proof.
  simpl. rewrite lookup_app_r by lia.
  replace (length pre + r - length pre)%nat with r by lia.
  apply list_lookup_fmap.
Qed.

Lemma relocate_innermost pre e s :
  innermost (relocate pre e s) = Nat.add (length pre) <$> innermost s.
Proof. unfold innermost. simpl. apply fmap_last. Qed.

Lemma relocate_insert pre (h : list MessageTrace) (r : ref) trace :
  <[(length pre + r)%nat := shift (length pre) trace]>
    (pre ++ (shift (length pre) <$> h)) =
  pre ++ (shift (length pre) <$> <[r := trace]> h).
Proof. rewrite insert_app_r, list_fmap_insert. reflexivity. Qed.

Lemma fmap_removelast {A B} (f : A -> B) (l : list A) :
  removelast (f <$> l) = f <$> removelast l.
Proof.
  induction l as [|x l IH] using rev_ind; [reflexivity|].
  rewrite fmap_app. simpl. rewrite !removelast_snoc. reflexivity.
Qed.

Lemma relocate_top_reset pre e message s :
  top_reset message (relocate pre e s) = relocate pre e (top_reset message s).
Proof.
  unfold top_reset. destruct (Nat.eqb (depth message) 0); reflexivity.
Qed.

Lemma try_of_relocate pre e ev s :
  try_of vm ev (relocate pre e s) =
  (relocate pre e (fst (try_of vm ev s)), snd (try_of vm ev s)).
Proof.
  destruct ev as [message|step|result]; simpl.
  - rewrite !beforeMessage_try_start.
    destruct (trace_of_message vm message) as [err|trace] eqn:Ht.
    { simpl. rewrite relocate_top_reset. reflexivity. }
    cbv zeta.
    assert (Hs1 :
      with_heap (heap (relocate pre e s) ++ [trace])
        (top_reset message (relocate pre e s)) =
      relocate pre e (with_heap (heap s ++ [trace]) (top_reset message s))).
    { unfold top_reset. destruct (Nat.eqb (depth message) 0);
        unfold relocate, with_heap; simpl;
        rewrite fmap_app, app_assoc; simpl;
        rewrite (shift_new _ _ _ Ht); reflexivity. }
    assert (Hh1 : heap (relocate pre e s) ++ [trace] =
                  pre ++ (shift (length pre) <$> (heap s ++ [trace]))).
    { simpl. rewrite fmap_app, app_assoc. simpl.
      rewrite (shift_new _ _ _ Ht). reflexivity. }
    assert (Hlen : length (heap (relocate pre e s)) =
                   (length pre + length (heap s))%nat).
    { simpl. rewrite length_app, length_fmap. reflexivity. }
    rewrite Hs1, relocate_innermost, Hlen, Hh1.
    set (s1 := with_heap (heap s ++ [trace]) (top_reset message s)).
    destruct (innermost s1) as [p|] eqn:Hp; simpl fmap; cbv iota.
    2:{ reflexivity. }
    rewrite lookup_app_r by lia.
    replace (length pre + p - length pre)%nat with p by lia.
    rewrite list_lookup_fmap. unfold ref in *.
    destruct ((heap s ++ [trace]) !! p) as [parent|]; simpl fmap; cbv iota;
      [|reflexivity].
    rewrite shift_isPrecompileTrace.
    destruct (isPrecompileTrace parent); [reflexivity|].
    rewrite shift_with_child, relocate_insert.
    unfold relocate, with_messageTraces, with_heap. simpl.
    rewrite fmap_app. reflexivity.
  - rewrite !step_try_eq, relocate_innermost.
    destruct (innermost s) as [r|]; simpl fmap; cbv iota; [|reflexivity].
    rewrite relocate_lookup.
    destruct (heap s !! r) as [trace|]; simpl fmap; cbv iota; [|reflexivity].
    rewrite shift_isPrecompileTrace.
    destruct (isPrecompileTrace trace); [reflexivity|].
    rewrite shift_with_step. simpl heap at 1. rewrite relocate_insert.
    reflexivity.
  - rewrite !afterMessage_try_eq, relocate_innermost.
    destruct (innermost s) as [r|]; simpl fmap; cbv iota; [|reflexivity].
    rewrite relocate_lookup.
    destruct (heap s !! r) as [trace|]; simpl fmap; cbv iota; [|reflexivity].
    rewrite shift_completed. simpl heap at 1. rewrite relocate_insert.
    change (_messageTraces (relocate pre e s))
      with (Nat.add (length pre) <$> _messageTraces s).
    rewrite length_fmap, fmap_removelast. unfold ref in *.
    match goal with
    | |- context [Nat.ltb 1 ?n] => destruct (Nat.ltb 1 n)
    end; reflexivity.
Qed.

Lemma handle_relocate pre e ev s :
  handle vm ev (relocate pre e s) =
  (relocate pre e (fst (handle vm ev s)), snd (handle vm ev s)).
Proof.
  rewrite !handle_eq.
  change (_shouldKeepTracing (relocate pre e s)) with (_shouldKeepTracing s).
  destruct (_shouldKeepTracing s); [|reflexivity].
  unfold try_catch. rewrite try_of_relocate.
  destruct (try_of vm ev s) as [s' [err|u]]; simpl; [|reflexivity].
  destruct (_dontThrowErrors s'); reflexivity.
Qed.

Lemma run_cons ev evs s :
  run vm (ev :: evs) s =
  (exec vm evs (fst (handle vm ev s)),
   snd (handle vm ev s) :: replies vm evs (fst (handle vm ev s))).
Proof.
  unfold exec, replies. simpl. destruct (handle vm ev s) as [s1 reply].
  simpl. destruct (run vm evs s1). reflexivity.
Qed.

Lemma run_relocate pre e evs s :
  run vm evs (relocate pre e s) =
  (relocate pre e (exec vm evs s), replies vm evs s).
Proof.
  revert s. induction evs as [|ev evs IH]; intros s; [reflexivity|].
  rewrite exec_cons, replies_cons. simpl run.
  rewrite handle_relocate, IH.
  destruct (handle vm ev s) as [s1 reply]. reflexivity.
Qed.

Lemma collect_shift {A} (f g : ref -> option A) n l :
  (forall c, f (n + c)%nat = g c) ->
  collect f (shift_step n <$> l) = collect g l.
Proof.
  intros Hfg. induction l as [|[k|c] l IH];
    rewrite ?fmap_cons; cbn [collect shift_step].
  - reflexivity.
  - rewrite IH. reflexivity.
  - rewrite Hfg, IH. reflexivity.
Qed.

Lemma reify_relocate pre h fuel (r : ref) :
  reify fuel (pre ++ (shift (length pre) <$> h)) (length pre + r)%nat =
  reify fuel h r.
Proof.
  revert r. induction fuel as [|fuel IH]; intros r; [reflexivity|].
  simpl. rewrite lookup_app_r by lia.
  replace (length pre + r - length pre)%nat with r by lia.
  rewrite list_lookup_fmap. unfold ref in *.
  destruct (h !! r) as [trace|]; [|reflexivity]. simpl.
  destruct trace as [t|t|t]; simpl; try reflexivity;
    rewrite (collect_shift _ (reify fuel h)) by exact IH; reflexivity.
Qed.

Lemma top_level_tree_relocate pre e fuel s :
  top_level_tree fuel (relocate pre e s) = top_level_tree fuel s.
Proof.
  unfold top_level_tree. simpl.
  destruct (_messageTraces s) as [|root l]; [reflexivity|]. simpl.
  apply reify_relocate.
Qed.

Lemma collect_is_Some {A} (f : ref -> option A) l :
  (forall c, SubTrace c ∈ l -> is_Some (f c)) -> is_Some (collect f l).
Proof.
  induction l as [|[k|c] l IH]; intros H; simpl.
  - eexists; reflexivity.
  - destruct IH as [rest ->]; [|eexists; reflexivity].
    intros c Hc. apply H. right. exact Hc.
  - destruct (H c) as [tree ->]; [left|].
    destruct IH as [rest ->]; [|eexists; reflexivity].
    intros c' Hc. apply H. right. exact Hc.
Qed.

(** With the height of the store as fuel, the tree of an object is read
    out in full. *)
Lemma reify_is_Some h fuel (r : ref) :
  children_later h ->
  Forall (steps_below (length h)) h ->
  (r < length h)%nat ->
  (length h - r <= fuel)%nat ->
  is_Some (reify fuel h r).
Proof.
  intros Hlater Hclosed. revert r.
  induction fuel as [|fuel IH]; intros r Hr Hfuel; [lia|].
  simpl. destruct (lookup_lt_is_Some_2 _ _ Hr) as [trace Ht].
  unfold ref in *. rewrite Ht.
  destruct (steps trace) as [l|] eqn:Hl; [|eexists; reflexivity].
  destruct (collect_is_Some (reify fuel h) l) as [children ->];
    [|eexists; reflexivity].
  intros c Hc.
  pose proof (Hlater r c trace l Ht Hl Hc) as H1.
  pose proof (Forall_lookup_1 _ _ _ _ Hclosed Ht l c Hl Hc) as H2.
  apply IH; lia.
Qed.

Lemma exec_children_later evs s :
  refs_allocated s -> children_later (heap s) ->
  children_later (heap (exec vm evs s)).
Proof.
  revert s. induction evs as [|ev evs IH]; intros s H1 H2; [exact H2|].
  rewrite exec_cons. apply IH.
  - apply handle_refs_allocated, H1.
  - apply handle_children_later; assumption.
Qed.

(** The first event of a top-level message: the tracer with a history
    is the new tracer, relocated. *)
Lemma top_level_beforeMessage_relocate s message :
  depth message = 0%nat -> _lastError s = None ->
  handle vm (BeforeMessage message) s =
  (relocate (heap s) (_enabled s)
     (fst (handle vm (BeforeMessage message)
             (enableTracing (new_VMTracer (_dontThrowErrors s))))),
   snd (handle vm (BeforeMessage message)
          (enableTracing (new_VMTracer (_dontThrowErrors s))))).
Proof.
  intros Hd Hnone. rewrite !handle_eq.
  rewrite (keep_tracing_no_error s Hnone).
  rewrite (keep_tracing_no_error
             (enableTracing (new_VMTracer (_dontThrowErrors s))) eq_refl).
  unfold try_catch. simpl try_of.
  rewrite !beforeMessage_try_start, !(top_reset_top message _ Hd).
  destruct (trace_of_message vm message) as [err|trace] eqn:Ht.
  - destruct s as [traces en dont last h]. simpl in *. subst last.
    unfold relocate. destruct dont; simpl; rewrite app_nil_r; reflexivity.
  - destruct s as [traces en dont last h]. simpl in *. subst last.
    unfold relocate, innermost. simpl.
    rewrite (shift_new _ _ _ Ht), Nat.add_0_r. reflexivity.
Qed.

(** X14: the trace that is built for a top-level message does not depend
    on what the tracer has traced before.  Handled by a tracer without a
    last error, and by a new tracer of the same mode, a sequence of events
    that starts with a [beforeMessage] of depth 0 gets the same replies
    and leaves the same last error, as many open frames, and the same
    tree under the root; on the new tracer that tree is read out in full
    when the height of the store is the fuel. *)
Theorem top_level_trace_does_not_depend_on_history s message evs
    (Hdepth : depth message = 0%nat)
    (Hnone : _lastError s = None) :
  let fresh := enableTracing (new_VMTracer (_dontThrowErrors s)) in
  let sa := exec vm (BeforeMessage message :: evs) fresh in
  let sb := exec vm (BeforeMessage message :: evs) s in
  replies vm (BeforeMessage message :: evs) s =
    replies vm (BeforeMessage message :: evs) fresh /\
  getLastError sb = getLastError sa /\
  length (_messageTraces sb) = length (_messageTraces sa) /\
  (forall fuel, top_level_tree fuel sb = top_level_tree fuel sa) /\
  (_messageTraces sa <> [] ->
   is_Some (top_level_tree (length (heap sa)) sa)).
Proof.
  intros fresh sa sb.
  assert (Hrun :
    run vm (BeforeMessage message :: evs) s =
    (relocate (heap s) (_enabled s) sa,
     replies vm (BeforeMessage message :: evs) fresh)).
  { subst sa. rewrite exec_cons, replies_cons, run_cons.
    rewrite (top_level_beforeMessage_relocate s message Hdepth Hnone).
    fold fresh. simpl fst. simpl snd. unfold exec at 1, replies at 1.
    rewrite run_relocate. reflexivity. }
  assert (Hsb : sb = relocate (heap s) (_enabled s) sa).
  { unfold sb, exec. rewrite Hrun. reflexivity. }
  split; [unfold replies; rewrite Hrun; reflexivity|].
  split; [rewrite Hsb; reflexivity|].
  split; [rewrite Hsb; simpl; apply length_fmap|].
  split; [intros fuel; rewrite Hsb; apply top_level_tree_relocate|].
  intros Hne. unfold top_level_tree.
  destruct (_messageTraces sa) as [|root l] eqn:Hl; [contradiction|].
  destruct (new_VMTracer_invariants (_dontThrowErrors s)) as (_ & H2 & H3).
  fold fresh in H2, H3.
  pose proof (exec_heap_closed vm (BeforeMessage message :: evs) _ H2) as Hc.
  pose proof (exec_refs_allocated vm (BeforeMessage message :: evs) _ H3)
    as Ha.
  fold sa in Hc, Ha.
  apply reify_is_Some.
  - apply exec_children_later; [exact H3|].
    intros p c parent l' Hp. destruct p; discriminate.
  - exact Hc.
  - unfold refs_allocated in Ha. rewrite Hl in Ha.
    inversion Ha; assumption.
  - lia.
Qed.

(** ** The count of the sub-traces, for every sequence of events *)

(** X15: whatever the events are (well nested or not, with or without
    errors in the handlers, in either mode), every object of the store
    of a tracer that started new has a [numberOfSubtraces] equal to the
    number of sub-traces of its [steps]; so have the frames of discarded
    trees and of a trace that tracing froze. *)
Theorem numberOfSubtraces_counted_in_every_run dontThrowErrors evs
    (r : ref) trace
    (Hr : heap (exec vm evs (enableTracing (new_VMTracer dontThrowErrors)))
            !! r = Some trace) :
  numberOfSubtraces trace = option_map count_subtraces (steps trace).
Proof.
  destruct (new_VMTracer_invariants dontThrowErrors) as (H1 & _ & _).
  pose proof (exec_heap_counted vm evs _ H1) as Hcount.
  apply subtraces_counted_eq.
  unfold heap_counted in Hcount.
  eapply Forall_lookup_1; eassumption.
Qed.

(** ** Sequences that no handler rejects *)

Lemma trace_of_message_fetched message :
  code_can_be_fetched vm message = true ->
  exists trace,
    trace_of_message vm message = inr trace /\
    isPrecompileTrace trace = is_precompile_target vm message.
Proof.
  unfold code_can_be_fetched, trace_of_message, is_precompile_target.
  destruct (to message) as [target|]; [|eexists; split; reflexivity].
  destruct ((0 <? BN target) && (BN target <=? MAX_PRECOMPILE_NUMBER vm));
    [eexists; split; reflexivity|].
  destruct (_getContractCode vm _); [discriminate|].
  eexists; split; reflexivity.
Qed.

Lemma blank_isPrecompileTrace trace trace' :
  blank trace' = blank trace ->
  isPrecompileTrace trace' = isPrecompileTrace trace.
Proof. destruct trace, trace'; simpl; intros H; try discriminate; reflexivity. Qed.

Lemma handle_undisturbed ev k k' b s :
  open_frames k s ->
  (k <> 0%nat -> leaf_precompiles b s) ->
  well_nested k [ev] = Some k' ->
  undisturbed vm b [ev] = true ->
  reported (snd (handle vm ev s)) = None /\
  (k' <> 0%nat ->
   leaf_precompiles
     (match ev with
      | BeforeMessage message => is_precompile_target vm message
      | _ => false
      end)
     (fst (handle vm ev s))).
Proof.
  intros [Herr Hlen] Hleaf Hwf Hund.
  pose proof (keep_tracing_no_error s Herr) as Hkeep.
  assert (Hold : forall (r : ref) trace,
            heap s !! r = Some trace ->
            exists trace',
              heap (fst (handle vm ev s)) !! r = Some trace' /\
              isPrecompileTrace trace' = isPrecompileTrace trace).
  { intros r trace Hr.
    destruct (handle_lookup ev s r trace Hr) as (t' & H1 & Hm & _).
    exists t'. split; [exact H1|].
    apply blank_isPrecompileTrace, mutation_blank, Hm. }
  revert Hold. rewrite handle_eq, Hkeep. unfold try_catch.
  destruct ev as [message|step|result]; simpl in Hwf, Hund |- *.
  - destruct (Nat.eqb_spec (depth message) k) as [Hd|]; [|discriminate].
    injection Hwf as <-.
    apply andb_prop in Hund as [Hund _].
    apply andb_prop in Hund as [Hb Hfetch].
    apply negb_true_iff in Hb. subst b.
    destruct (trace_of_message_fetched message Hfetch) as (trace & Ht & Hkind).
    rewrite beforeMessage_try_start, Ht. cbv zeta.
    unfold innermost. simpl.
    assert (Hat : (heap s ++ [trace]) !! length (heap s) = Some trace).
    { rewrite lookup_app_r by lia. rewrite Nat.sub_diag. reflexivity. }
    destruct k as [|k].
    + rewrite (top_reset_top message s Hd). simpl. intros _.
      split; [reflexivity|]. intros _ i r Hi.
      destruct i as [|i]; simpl in Hi; [|discriminate].
      injection Hi as <-. exists trace. split; [exact Hat|].
      intros Hp. split; [reflexivity|congruence].
    + rewrite (top_reset_nested message s) by lia.
      specialize (Hleaf ltac:(lia)).
      destruct (last (_messageTraces s)) as [p|] eqn:Hp.
      2:{ apply last_None in Hp. rewrite Hp in Hlen. discriminate. }
      assert (Hpk : _messageTraces s !! k = Some p).
      { rewrite last_lookup, Hlen in Hp. exact Hp. }
      destruct (Hleaf k p Hpk) as (parent & Hpar & Hpp).
      rewrite (lookup_app_l_Some _ _ _ _ Hpar).
      destruct (isPrecompileTrace parent) eqn:Hparent.
      { destruct (Hpp eq_refl) as [_ ?]. discriminate. }
      simpl. intros Hold. split; [reflexivity|]. intros _ i r Hi.
      simpl in Hi |- *. rewrite length_app. simpl length.
      destruct (decide (i < length (_messageTraces s))%nat) as [Hlt|Hge].
      * rewrite lookup_app_l in Hi by exact Hlt.
        destruct (Hleaf i r Hi) as (t & Hr & Hrp).
        destruct (Hold r t Hr) as (t' & Hr' & Hk').
        exists t'. split; [exact Hr'|]. rewrite Hk'. intros Hpre.
        destruct (Hrp Hpre) as [_ ?]. discriminate.
      * rewrite lookup_app_r in Hi by lia.
        destruct (i - length (_messageTraces s))%nat eqn:Hi0;
          simpl in Hi; [|discriminate].
        injection Hi as <-. exists trace.
        pose proof (lookup_lt_Some _ _ _ Hpar) as Hplt.
        rewrite list_lookup_insert_ne by lia.
        split; [exact Hat|]. intros Hpre. split; [lia|congruence].
  - destruct k as [|k]; [discriminate|]. injection Hwf as <-.
    apply andb_prop in Hund as [Hb _].
    apply negb_true_iff in Hb. subst b.
    specialize (Hleaf ltac:(lia)).
    rewrite step_try_eq.
    destruct (innermost s) as [r|] eqn:Hin.
    2:{ apply last_None in Hin. rewrite Hin in Hlen. discriminate. }
    assert (Hrk : _messageTraces s !! k = Some r).
    { unfold innermost in Hin. rewrite last_lookup, Hlen in Hin. exact Hin. }
    destruct (Hleaf k r Hrk) as (trace & Hr & Hrp).
    unfold ref in *. rewrite Hr.
    destruct (isPrecompileTrace trace) eqn:Hpre.
    { destruct (Hrp eq_refl) as [_ ?]. discriminate. }
    simpl. intros Hold. split; [reflexivity|]. intros _ i x Hi.
    destruct (Hleaf i x Hi) as (t & Hx & Hxp).
    destruct (Hold x t Hx) as (t' & Hx' & Hk').
    exists t'. split; [exact Hx'|]. rewrite Hk'. intros Hp.
    destruct (Hxp Hp) as [_ ?]. discriminate.
  - destruct k as [|k]; [discriminate|]. injection Hwf as <-.
    specialize (Hleaf ltac:(lia)).
    rewrite afterMessage_try_eq.
    destruct (innermost s) as [r|] eqn:Hin.
    2:{ apply last_None in Hin. rewrite Hin in Hlen. discriminate. }
    assert (Hrk : _messageTraces s !! k = Some r).
    { unfold innermost in Hin. rewrite last_lookup, Hlen in Hin. exact Hin. }
    destruct (Hleaf k r Hrk) as (trace & Hr & Hrp).
    unfold ref in *. rewrite Hr.
    simpl. intros Hold. split; [reflexivity|]. intros Hk i x Hi.
    destruct (innermost_snoc s r Hin) as [l Hl].
    rewrite Hl, length_app in *. simpl length in *.
    replace (Nat.ltb 1 (length l + 1)) with true in *
      by (symmetry; apply Nat.ltb_lt; lia).
    rewrite removelast_snoc in *.
    assert (Hil : (i < length l)%nat) by (eapply lookup_lt_Some, Hi).
    destruct (Hleaf i x) as (t & Hx & Hxp).
    { rewrite Hl. rewrite lookup_app_l by exact Hil. exact Hi. }
    destruct (Hold x t Hx) as (t' & Hx' & Hk').
    exists t'. split; [exact Hx'|]. rewrite Hk'. intros Hp.
    destruct (Hxp Hp) as [Hlast _]. rewrite Hl, length_app in Hlast.
    simpl in Hlast. lia.
Qed.

Lemma exec_undisturbed evs k0 k b s :
  open_frames k0 s ->
  (k0 <> 0%nat -> leaf_precompiles b s) ->
  well_nested k0 evs = Some k ->
  undisturbed vm b evs = true ->
  Forall (fun reply => reply = acknowledged) (replies vm evs s) /\
  getLastError (exec vm evs s) = None.
Proof.
  revert k0 b s.
  induction evs as [|ev evs IH]; intros k0 b s H0 H1 Hwf Hund.
  - split; [constructor|apply H0].
  - rewrite exec_cons, replies_cons.
    change (ev :: evs) with ([ev] ++ evs) in Hwf.
    rewrite well_nested_app in Hwf.
    destruct (well_nested k0 [ev]) as [k1|] eqn:Hk1; [|discriminate].
    assert (Hund1 : undisturbed vm b [ev] = true).
    { destruct ev as [message|step|result]; simpl in Hund |- *.
      - apply andb_prop in Hund as [Hund _]. rewrite Hund. reflexivity.
      - apply andb_prop in Hund as [Hund _]. rewrite Hund. reflexivity.
      - reflexivity. }
    destruct (handle_undisturbed ev k0 k1 b s H0 H1 Hk1 Hund1) as [Hc Hleaf].
    pose proof (handle_open_frames vm ev k0 k1 s H0 Hk1 Hc) as H0'.
    assert (Hund2 :
      undisturbed vm
        (match ev with
         | BeforeMessage message => is_precompile_target vm message
         | _ => false
         end) evs = true).
    { destruct ev; simpl in Hund;
        repeat (apply andb_prop in Hund as [? Hund]); exact Hund. }
    destruct (IH k1 _ _ H0' Hleaf Hwf Hund2) as [IH1 IH2].
    split; [|exact IH2].
    constructor; [|exact IH1].
    pose proof (handle_clean vm ev s (keep_tracing_no_error s (proj1 H0)) Hc)
      as Htry.
    rewrite handle_eq, (keep_tracing_no_error s (proj1 H0)).
    unfold try_catch. rewrite Htry. reflexivity.
Qed.

(** X17: a well-formed sequence of events in which no precompile gets a
    step or a nested message, and in which the code of every call is
    found, is handled by a new tracer without an error: no handler sends
    anything to the reporter, every continuation is called without an
    error, and no last error is kept. *)
Theorem undisturbed_sequences_raise_no_error dontThrowErrors evs k
    (Hwf : well_nested 0 evs = Some k)
    (Hund : undisturbed vm false evs = true) :
  Forall (fun reply => reply = acknowledged)
    (replies vm evs (enableTracing (new_VMTracer dontThrowErrors))) /\
  getLastError (exec vm evs (enableTracing (new_VMTracer dontThrowErrors))) =
    None.
Proof.
  apply (exec_undisturbed evs 0%nat k false); try assumption.
  - split; [reflexivity|simpl; lia].
  - intros H. contradiction.
Qed.

End Further.

(** * The concrete runs *)

Example plain_call_trace :
  run vm8 plain_call strict_tracer =
  (mkTracer [0%nat] true false None
     [Call (mkCall [Byte.x60; Byte.x00] [] [EvmStep 0; EvmStep 3] 0
              [Byte.x6f; Byte.x6b] [Byte.xaa] 0 0 None)],
   replicate 4 acknowledged).
Proof. reflexivity. Qed.

Example call_with_precompile_trace :
  exec vm8 call_with_precompile strict_tracer =
  mkTracer [0%nat] true false None
    [Call (mkCall [Byte.x60; Byte.x00] [] [SubTrace 1%nat] 0 [] [Byte.xaa] 1 0
             None);
     Precompile (mkPrecompile 1 [] 0 [Byte.x2a] 1 None)].
Proof. reflexivity. Qed.

Example successful_creation_trace :
  exec vm8 successful_creation strict_tracer =
  mkTracer [0%nat] true false None
    [Create (mkCreate [Byte.x60] [] 0 [] 0 0 (Some [Byte.xbb]) None)].
Proof. reflexivity. Qed.

(** The range of the precompiles reaches one address past the last. *)
Example target_9_is_a_precompile :
  trace_of_message vm8 (call_to [Byte.x09] 0) =
  inr (Precompile (mkPrecompile 9 [] 0 [] 0 None)).
Proof. reflexivity. Qed.

Example target_10_is_a_call :
  trace_of_message vm8 (call_to [Byte.x0a] 0) =
  inr (Call (mkCall [Byte.x60; Byte.x00] [] [] 0 [] [Byte.x0a] 0 0 None)).
Proof. reflexivity. Qed.

Example target_0_is_a_call :
  trace_of_message vm8 (call_to [Byte.x00] 0) =
  inr (Call (mkCall [Byte.x60; Byte.x00] [] [] 0 [] [Byte.x00] 0 0 None)).
Proof. reflexivity. Qed.

(** In error-tolerant mode the error of the step is kept, and the partial
    tree stays available. *)
Example frozen_tracer_last_error :
  getLastError frozen_tracer = Some (JsError msg_step_in_precompile) /\
  getLastTopLevelMessageTrace frozen_tracer = inr 0%nat.
Proof. split; reflexivity. Qed.

(** * The theorems at concrete inputs *)

Lemma numberOfSubtraces_counts_subtraces_witness :
  well_formed call_with_precompile /\
  take 2 call_with_precompile `prefix_of` call_with_precompile /\
  exists trace,
    heap (exec vm8 (take 2 call_with_precompile) strict_tracer) !! 0%nat =
      Some trace /\
    numberOfSubtraces trace = option_map count_subtraces (steps trace).
Proof.
  assert (Hwf : well_formed call_with_precompile) by reflexivity.
  assert (Hpre : take 2 call_with_precompile `prefix_of` call_with_precompile)
    by (eexists; reflexivity).
  split; [exact Hwf|]. split; [exact Hpre|].
  apply (numberOfSubtraces_counts_subtraces vm8 false _ _ 0%nat 0%nat Hwf Hpre).
  - reflexivity.
  - apply in_tree_root.
Defined.

Lemma frozen_until_cleared_witness :
  _dontThrowErrors frozen_tracer = true /\
  _lastError frozen_tracer = Some (JsError msg_step_in_precompile) /\
  run vm8 [AfterMessage (returned []); AfterMessage (returned [])]
    frozen_tracer =
  (frozen_tracer, replicate 2 acknowledged).
Proof.
  split; [reflexivity|]. split; [reflexivity|].
  exact (proj1 (proj2 (proj2 (proj2
    (frozen_until_cleared vm8 frozen_tracer
       (JsError msg_step_in_precompile)
       [AfterMessage (returned []); AfterMessage (returned [])]
       eq_refl eq_refl))))).
Defined.


Lemma afterMessage_completes_innermost_witness :
  _shouldKeepTracing in_creation = true /\
  innermost in_creation = Some 1%nat /\
  heap in_creation !! 1%nat =
    Some (Create (mkCreate [Byte.x60] [] 0 [] 0 1 None None)) /\
  snd (_afterMessageHandler (created [Byte.xbb]) in_creation) = acknowledged /\
  heap (fst (_afterMessageHandler (created [Byte.xbb]) in_creation)) =
    <[1%nat := completed (created [Byte.xbb])
                 (Create (mkCreate [Byte.x60] [] 0 [] 0 1 None None))]>
      (heap in_creation).
Proof.
  split; [reflexivity|]. split; [reflexivity|]. split; [reflexivity|].
  pose proof (afterMessage_completes_innermost in_creation
                (created [Byte.xbb]) 1%nat
                (Create (mkCreate [Byte.x60] [] 0 [] 0 1 None None))
                eq_refl eq_refl eq_refl) as H.
  split; [exact (proj1 H)|exact (proj1 (proj2 H))].
Defined.

Lemma root_populated_after_complete_messages_witness :
  well_formed ([BeforeMessage (creation [Byte.x60] 0)] ++
               [AfterMessage (created [Byte.xbb])]) /\
  Forall (fun reply => reported reply = None)
    (replies vm8 ([BeforeMessage (creation [Byte.x60] 0)] ++
                  [AfterMessage (created [Byte.xbb])])
       (enableTracing (new_VMTracer false))) /\
  exists root trace,
    getLastTopLevelMessageTrace
      (exec vm8 ([BeforeMessage (creation [Byte.x60] 0)] ++
                 [AfterMessage (created [Byte.xbb])])
         (enableTracing (new_VMTracer false))) = inr root /\
    _messageTraces
      (exec vm8 ([BeforeMessage (creation [Byte.x60] 0)] ++
                 [AfterMessage (created [Byte.xbb])])
         (enableTracing (new_VMTracer false))) = [root] /\
    heap
      (exec vm8 ([BeforeMessage (creation [Byte.x60] 0)] ++
                 [AfterMessage (created [Byte.xbb])])
         (enableTracing (new_VMTracer false))) !! root = Some trace /\
    error trace = exceptionError (execResult (created [Byte.xbb])) /\
    returnData trace = returnValue (execResult (created [Byte.xbb])) /\
    (forall c, trace = Create c ->
               create_deployedContract c = createdAddress (created [Byte.xbb])).
Proof.
  assert (Hwf : well_formed ([BeforeMessage (creation [Byte.x60] 0)] ++
                             [AfterMessage (created [Byte.xbb])]))
    by reflexivity.
  assert (Hclean :
    Forall (fun reply => reported reply = None)
      (replies vm8 ([BeforeMessage (creation [Byte.x60] 0)] ++
                    [AfterMessage (created [Byte.xbb])])
         (enableTracing (new_VMTracer false))))
    by (repeat constructor).
  split; [exact Hwf|]. split; [exact Hclean|].
  exact (root_populated_after_complete_messages vm8 false
           [BeforeMessage (creation [Byte.x60] 0)] (created [Byte.xbb])
           Hwf Hclean).
Defined.

Lemma top_level_message_discards_previous_tree_witness :
  _shouldKeepTracing after_plain_call = true /\
  depth (call_to [Byte.xbb] 0) = 0%nat /\
  _messageTraces after_plain_call = [0%nat] /\
  _messageTraces
    (fst (_beforeMessageHandler vm8 (call_to [Byte.xbb] 0) after_plain_call)) =
  [1%nat].
Proof.
  split; [reflexivity|]. split; [reflexivity|]. split; [reflexivity|].
  pose proof (top_level_message_discards_previous_tree vm8 after_plain_call
                (call_to [Byte.xbb] 0) eq_refl eq_refl) as H.
  exact (proj1 (proj2 (proj1 (proj2 H) 1%nat eq_refl))).
Defined.

Lemma precompile_frame_rejects_events_witness :
  _shouldKeepTracing in_precompile = true /\
  innermost in_precompile = Some 0%nat /\
  heap in_precompile !! 0%nat =
    Some (Precompile (mkPrecompile 1 [] 0 [] 0 None)) /\
  reported (snd (_stepHandler (mkStep 0) in_precompile)) =
    Some (JsError msg_step_in_precompile) /\
  reported (snd (_beforeMessageHandler vm8 (call_to [Byte.xaa] 1)
                   in_precompile)) =
    Some (JsError msg_message_in_precompile) /\
  _lastError (fst (_stepHandler (mkStep 0) in_precompile)) = None /\
  _lastError
    (fst (_stepHandler (mkStep 0)
            (exec vm8 [BeforeMessage (call_to [Byte.x01] 0)]
               tolerant_tracer))) =
    Some (JsError msg_step_in_precompile) /\
  _lastError
    (fst (_beforeMessageHandler vm8 (call_to [Byte.xaa] 1)
            (exec vm8 [BeforeMessage (call_to [Byte.x01] 0)]
               tolerant_tracer))) =
    Some (JsError msg_message_in_precompile).
Proof.
  split; [reflexivity|]. split; [reflexivity|]. split; [reflexivity|].
  pose proof (precompile_frame_rejects_events vm8 in_precompile 0%nat
                (mkPrecompile 1 [] 0 [] 0 None) eq_refl eq_refl eq_refl) as H.
  pose proof (precompile_frame_rejects_events vm8
                (exec vm8 [BeforeMessage (call_to [Byte.x01] 0)]
                   tolerant_tracer)
                0%nat (mkPrecompile 1 [] 0 [] 0 None)
                eq_refl eq_refl eq_refl) as Ht.
  split; [exact (proj1 (proj1 H (mkStep 0)))|].
  split.
  { refine (proj1 (proj1 (proj2 H) (call_to [Byte.xaa] 1) _) 1%nat eq_refl).
    discriminate. }
  split; [exact (proj1 (proj2 (proj2 (proj1 H (mkStep 0)))))|].
  split; [exact (proj1 (proj2 (proj2 (proj1 Ht (mkStep 0)))))|].
  refine (proj1 (proj2 (proj2 (proj2
            (proj1 (proj2 Ht) (call_to [Byte.xaa] 1) _))))).
  discriminate.
Defined.

Lemma empty_stack_type_error_witness :
  _shouldKeepTracing strict_tracer = true /\
  _messageTraces strict_tracer = [] /\
  _stepHandler (mkStep 0) strict_tracer =
    (strict_tracer, mkReply (Some TypeError) (Some TypeError)) /\
  _afterMessageHandler (returned []) strict_tracer =
    (strict_tracer, mkReply (Some TypeError) (Some TypeError)).
Proof.
  split; [reflexivity|]. split; [reflexivity|].
  pose proof (empty_stack_type_error strict_tracer eq_refl eq_refl) as H.
  split.
  - exact (proj1 H (mkStep 0)).
  - exact (proj1 (proj2 H) (returned [])).
Defined.

(** * Where the code departs from the specification *)

(** C6: the query succeeds on a root whose [afterMessage] has not been
    handled: no [afterMessage] is among the events, and the root is the
    object as [_beforeMessageHandler] built it. *)
Lemma query_before_afterMessage_counterexample :
  (forall result,
     AfterMessage result ∉ [BeforeMessage (creation [Byte.x60] 0)]) /\
  getLastTopLevelMessageTrace
    (exec vm8 [BeforeMessage (creation [Byte.x60] 0)] strict_tracer) =
    inr 0%nat /\
  heap (exec vm8 [BeforeMessage (creation [Byte.x60] 0)] strict_tracer)
    !! 0%nat =
    Some (Create (mkCreate [Byte.x60] [] 0 DUMMY_RETURN_DATA 0 0 None None)).
Proof.
  split; [|split; reflexivity].
  intros result H. apply list_elem_of_singleton in H. discriminate.
Qed.

(** C8: a nested [beforeMessage] of a call whose code lookup fails, while
    a precompile is the innermost open frame: the error that is raised is
    the one of the lookup, not a diagnostic of the tracer. *)
Lemma lookup_error_under_precompile_counterexample :
  _shouldKeepTracing
    (exec vm8_no_code [BeforeMessage (call_to [Byte.x01] 0)] strict_tracer) =
    true /\
  innermost
    (exec vm8_no_code [BeforeMessage (call_to [Byte.x01] 0)] strict_tracer) =
    Some 0%nat /\
  heap (exec vm8_no_code [BeforeMessage (call_to [Byte.x01] 0)] strict_tracer)
    !! 0%nat = Some (Precompile (mkPrecompile 1 [] 0 [] 0 None)) /\
  depth (call_to [Byte.xaa] 1) = 1%nat /\
  _beforeMessageHandler vm8_no_code (call_to [Byte.xaa] 1)
    (exec vm8_no_code [BeforeMessage (call_to [Byte.x01] 0)] strict_tracer) =
    (exec vm8_no_code [BeforeMessage (call_to [Byte.x01] 0)] strict_tracer,
     mkReply (Some lookup_failure) (Some lookup_failure)) /\
  is_invariant_diagnostic lookup_failure = false.
Proof. repeat split. Qed.

(** C9: in error-tolerant mode, with no open frame and tracing going on,
    [_stepHandler] and [_afterMessageHandler] call their continuation
    without an error. *)
Lemma empty_stack_tolerant_counterexample :
  _dontThrowErrors tolerant_tracer = true /\
  _shouldKeepTracing tolerant_tracer = true /\
  _messageTraces tolerant_tracer = [] /\
  next_arg (snd (_stepHandler (mkStep 0) tolerant_tracer)) = None /\
  next_arg (snd (_afterMessageHandler (returned []) tolerant_tracer)) = None.
Proof. repeat split. Qed.

(** * The further properties at concrete inputs *)

(** The tree of the second of two top-level messages. *)
Example second_message_tree :
  top_level_tree 2
    (exec vm8 (BeforeMessage second_message :: rest_of_second_message)
       after_plain_call) =
  Some (TraceNode
          (Call (mkCall [Byte.x60; Byte.x00] [] [] 0 [Byte.x6f] [Byte.xcc]
                   1 0 None))
          [inl 0%nat;
           inr (TraceNode (Precompile (mkPrecompile 1 [] 0 [Byte.x2a] 1 None))
                  []);
           inl 7%nat]).
Proof. reflexivity. Qed.

Lemma tolerant_mode_never_aborts_witness :
  _dontThrowErrors tolerant_tracer = true /\
  Forall (fun reply => next_arg reply = None)
    (replies vm8_no_code three_faults tolerant_tracer).
Proof.
  split; [reflexivity|].
  exact (tolerant_mode_never_aborts vm8_no_code three_faults tolerant_tracer
           eq_refl).
Defined.


Lemma step_and_afterMessage_raise_before_mutating_witness :
  reported (snd (_stepHandler (mkStep 0) in_precompile)) =
    Some (JsError msg_step_in_precompile) /\
  fst (_stepHandler (mkStep 0) in_precompile) = in_precompile.
Proof.
  split; [reflexivity|].
  exact (proj1 (step_and_afterMessage_raise_before_mutating vm8 in_precompile
                  (JsError msg_step_in_precompile))
           (mkStep 0) eq_refl).
Defined.

Lemma handler_errors_classified_witness :
  refs_allocated in_precompile /\
  reported (snd (handle vm8 (Step (mkStep 0)) in_precompile)) =
    Some (JsError msg_step_in_precompile) /\
  ((JsError msg_step_in_precompile = TypeError /\
    _messageTraces in_precompile = []) \/
   (JsError msg_step_in_precompile = JsError msg_step_in_precompile /\
    exists r pt,
      innermost in_precompile = Some r /\
      heap in_precompile !! r = Some (Precompile pt))).
Proof.
  assert (Ha : refs_allocated in_precompile).
  { constructor; [|constructor]. simpl. lia. }
  split; [exact Ha|]. split; [reflexivity|].
  exact (handler_errors_classified vm8 (Step (mkStep 0)) in_precompile
           (JsError msg_step_in_precompile) Ha eq_refl).
Defined.

Lemma failed_top_level_call_loses_previous_trace_witness :
  _enabled after_plain_call = true /\
  _shouldKeepTracing after_plain_call = true /\
  depth (call_to [Byte.xaa] 0) = 0%nat /\
  to (call_to [Byte.xaa] 0) = Some [Byte.xaa] /\
  ~ 1 <= BN [Byte.xaa] <= Z.of_nat (precompiles_length vm8_no_code) + 1 /\
  _getContractCode vm8_no_code [Byte.xaa] = inl lookup_failure /\
  getLastTopLevelMessageTrace after_plain_call = inr 0%nat /\
  getLastTopLevelMessageTrace
    (fst (_beforeMessageHandler vm8_no_code (call_to [Byte.xaa] 0)
            after_plain_call)) =
    inl (JsError msg_no_message).
Proof.
  assert (Hrange :
    ~ 1 <= BN [Byte.xaa] <= Z.of_nat (precompiles_length vm8_no_code) + 1).
  { intros [_ H]. apply H. reflexivity. }
  split; [reflexivity|]. split; [reflexivity|]. split; [reflexivity|].
  split; [reflexivity|]. split; [exact Hrange|]. split; [reflexivity|].
  split; [reflexivity|].
  exact (proj2 (proj2
    (failed_top_level_call_loses_previous_trace vm8_no_code after_plain_call
       (call_to [Byte.xaa] 0) [Byte.xaa] lookup_failure
       eq_refl eq_refl eq_refl eq_refl Hrange eq_refl))).
Defined.

Lemma frames_keep_identity_and_grow_witness :
  heap in_call !! 0%nat =
    Some (Call (mkCall [Byte.x60; Byte.x00] [] [] 0 [] [Byte.xaa] 0 0 None)) /\
  exists trace',
    heap (exec vm8 rest_of_second_message in_call) !! 0%nat = Some trace' /\
    blank trace' =
      blank (Call (mkCall [Byte.x60; Byte.x00] [] [] 0 [] [Byte.xaa] 0 0
                     None)) /\
    (forall l,
       steps (Call (mkCall [Byte.x60; Byte.x00] [] [] 0 [] [Byte.xaa] 0 0
                      None)) = Some l ->
       exists k, steps trace' = Some (l ++ k)).
Proof.
  split; [reflexivity|].
  exact (frames_keep_identity_and_grow vm8 rest_of_second_message in_call
           0%nat _ eq_refl).
Defined.

Lemma closed_frames_are_immutable_witness :
  (1%nat ∉ _messageTraces precompile_closed) /\
  heap precompile_closed !! 1%nat =
    Some (Precompile (mkPrecompile 1 [] 0 [Byte.x2a] 1 None)) /\
  heap (exec vm8 rest_of_second_message precompile_closed) !! 1%nat =
    Some (Precompile (mkPrecompile 1 [] 0 [Byte.x2a] 1 None)).
Proof.
  assert (Hc : 1%nat ∉ _messageTraces precompile_closed).
  { intros H. apply list_elem_of_singleton in H. discriminate. }
  split; [exact Hc|]. split; [reflexivity|].
  exact (proj1 (closed_frames_are_immutable vm8 rest_of_second_message
                  precompile_closed 1%nat _ Hc eq_refl)).
Defined.

Lemma open_messages_are_the_open_frames_witness :
  well_nested 0 (take 2 call_with_precompile) = Some 2%nat /\
  Forall (fun reply => reported reply = None)
    (replies vm8 (take 2 call_with_precompile)
       (enableTracing (new_VMTracer false))) /\
  length (_messageTraces
            (exec vm8 (take 2 call_with_precompile)
               (enableTracing (new_VMTracer false)))) = 2%nat.
Proof.
  assert (Hclean :
    Forall (fun reply => reported reply = None)
      (replies vm8 (take 2 call_with_precompile)
         (enableTracing (new_VMTracer false))))
    by (repeat constructor).
  split; [reflexivity|]. split; [exact Hclean|].
  refine (proj1 (proj2 (open_messages_are_the_open_frames vm8 false
                          (take 2 call_with_precompile) 2%nat eq_refl Hclean))
            _).
  discriminate.
Defined.

Lemma depths_are_nesting_levels_witness :
  well_nested 0 (take 2 call_with_precompile) = Some 2%nat /\
  Forall (fun reply => reported reply = None)
    (replies vm8 (take 2 call_with_precompile)
       (enableTracing (new_VMTracer false))) /\
  depth_indexed
    (exec vm8 (take 2 call_with_precompile)
       (enableTracing (new_VMTracer false))).
Proof.
  assert (Hclean :
    Forall (fun reply => reported reply = None)
      (replies vm8 (take 2 call_with_precompile)
         (enableTracing (new_VMTracer false))))
    by (repeat constructor).
  split; [reflexivity|]. split; [exact Hclean|].
  exact (proj1 (depths_are_nesting_levels vm8 false
                  (take 2 call_with_precompile) 2%nat eq_refl Hclean)).
Defined.

Lemma subtraces_are_later_objects_witness :
  heap (exec vm8 call_with_precompile (enableTracing (new_VMTracer false)))
    !! 0%nat =
    Some (Call (mkCall [Byte.x60; Byte.x00] [] [SubTrace 1%nat] 0 []
                  [Byte.xaa] 1 0 None)) /\
  (0 < 1)%nat /\
  (1 < length (heap (exec vm8 call_with_precompile
                       (enableTracing (new_VMTracer false)))))%nat.
Proof.
  split; [reflexivity|].
  refine (subtraces_are_later_objects vm8 false call_with_precompile
            0%nat 1%nat _ [SubTrace 1%nat] eq_refl eq_refl _).
  apply list_elem_of_singleton. reflexivity.
Defined.

Lemma steps_are_recorded_in_order_witness :
  _shouldKeepTracing in_call = true /\
  innermost in_call = Some 0%nat /\
  exec vm8 (map Step [mkStep 0; mkStep 3; mkStep 5]) in_call =
  with_heap
    [Call (mkCall [Byte.x60; Byte.x00] []
             [EvmStep 0; EvmStep 3; EvmStep 5] 0 [] [Byte.xaa] 0 0 None)]
    in_call.
Proof.
  split; [reflexivity|]. split; [reflexivity|].
  exact (f_equal fst
           (steps_are_recorded_in_order vm8 [mkStep 0; mkStep 3; mkStep 5]
              in_call 0%nat _ eq_refl eq_refl eq_refl eq_refl)).
Defined.

Lemma precompile_targets_are_padded_small_bytes_witness :
  to (call_to precompile_1_address 0) =
    Some (replicate 19 Byte.x00 ++ [Byte.x01]) /\
  Z.of_nat (precompiles_length vm8) + 1 < 256 /\
  exists pt,
    new_trace vm8 (call_to precompile_1_address 0) strict_tracer =
      (with_heap (heap strict_tracer ++ [Precompile pt]) strict_tracer,
       inr (length (heap strict_tracer))).
Proof.
  split; [reflexivity|]. split; [reflexivity|].
  apply (proj2 (precompile_targets_are_padded_small_bytes vm8
                  (call_to precompile_1_address 0) strict_tracer
                  (replicate 19 Byte.x00) Byte.x01 eq_refl eq_refl)).
  split.
  - repeat constructor.
  - split; discriminate.
Defined.

Lemma top_level_trace_does_not_depend_on_history_witness :
  depth second_message = 0%nat /\
  _lastError after_plain_call = None /\
  heap after_plain_call <> [] /\
  forall fuel,
    top_level_tree fuel
      (exec vm8 (BeforeMessage second_message :: rest_of_second_message)
         after_plain_call) =
    top_level_tree fuel
      (exec vm8 (BeforeMessage second_message :: rest_of_second_message)
         (enableTracing (new_VMTracer (_dontThrowErrors after_plain_call)))).
Proof.
  split; [reflexivity|]. split; [reflexivity|]. split; [discriminate|].
  exact (proj1 (proj2 (proj2 (proj2
    (top_level_trace_does_not_depend_on_history vm8 after_plain_call
       second_message rest_of_second_message eq_refl eq_refl))))).
Defined.

Lemma numberOfSubtraces_counted_in_every_run_witness :
  heap (exec vm8_no_code
          [AfterMessage (returned []); BeforeMessage (creation [Byte.x60] 0);
           Step (mkStep 0); BeforeMessage (call_to [Byte.x01] 1);
           Step (mkStep 2); AfterMessage (returned []);
           BeforeMessage (call_to [Byte.xaa] 1);
           BeforeMessage (creation [Byte.x61] 1); Step (mkStep 4)]
          (enableTracing (new_VMTracer false)))
    !! 0%nat =
    Some (Create (mkCreate [Byte.x60]
                    [EvmStep 0; SubTrace 1%nat; SubTrace 2%nat] 0 [] 2 0
                    None None)) /\
  numberOfSubtraces
    (Create (mkCreate [Byte.x60]
               [EvmStep 0; SubTrace 1%nat; SubTrace 2%nat] 0 [] 2 0
               None None)) =
    option_map count_subtraces
      (steps (Create (mkCreate [Byte.x60]
                        [EvmStep 0; SubTrace 1%nat; SubTrace 2%nat] 0 [] 2 0
                        None None))).
Proof.
  split; [reflexivity|].
  exact (numberOfSubtraces_counted_in_every_run vm8_no_code false
           [AfterMessage (returned []); BeforeMessage (creation [Byte.x60] 0);
            Step (mkStep 0); BeforeMessage (call_to [Byte.x01] 1);
            Step (mkStep 2); AfterMessage (returned []);
            BeforeMessage (call_to [Byte.xaa] 1);
            BeforeMessage (creation [Byte.x61] 1); Step (mkStep 4)]
           0%nat _ eq_refl).
Defined.

Lemma undisturbed_sequences_raise_no_error_witness :
  well_nested 0 (BeforeMessage second_message :: rest_of_second_message) =
    Some 0%nat /\
  undisturbed vm8 false
    (BeforeMessage second_message :: rest_of_second_message) = true /\
  Forall (fun reply => reply = acknowledged)
    (replies vm8 (BeforeMessage second_message :: rest_of_second_message)
       (enableTracing (new_VMTracer true))).
Proof.
  split; [reflexivity|]. split; [reflexivity|].
  exact (proj1 (undisturbed_sequences_raise_no_error vm8 true
                  (BeforeMessage second_message :: rest_of_second_message)
                  0%nat eq_refl eq_refl)).
Defined.


(** * A frozen tracer, the completion of a root and strict mode, at concrete inputs *)

(** C7: a [beforeMessage] of depth 0 handled by a tracer that an error
    has frozen (error-tolerant mode) discards nothing: the handler calls
    its continuation and leaves the list of traces, and the query still
    returns the root of the old trace. *)
Lemma frozen_top_level_message_counterexample :
  depth (call_to [Byte.xbb] 0) = 0%nat /\
  _dontThrowErrors frozen_tracer = true /\
  getLastError frozen_tracer = Some (JsError msg_step_in_precompile) /\
  _messageTraces frozen_tracer = [0%nat; 1%nat] /\
  _beforeMessageHandler vm8 (call_to [Byte.xbb] 0) frozen_tracer =
    (frozen_tracer, acknowledged) /\
  getLastTopLevelMessageTrace
    (fst (_beforeMessageHandler vm8 (call_to [Byte.xbb] 0) frozen_tracer)) =
    inr 0%nat.
Proof. repeat split. Qed.

Lemma root_populated_by_its_afterMessage_witness :
  _enabled (exec vm8 [BeforeMessage (creation [Byte.x60] 0)] strict_tracer) =
    true /\
  _shouldKeepTracing
    (exec vm8 [BeforeMessage (creation [Byte.x60] 0)] strict_tracer) = true /\
  _messageTraces
    (exec vm8 [BeforeMessage (creation [Byte.x60] 0)] strict_tracer) =
    [0%nat] /\
  heap (exec vm8 [BeforeMessage (creation [Byte.x60] 0)] strict_tracer)
    !! 0%nat =
    Some (Create (mkCreate [Byte.x60] [] 0 [] 0 0 None None)) /\
  getLastTopLevelMessageTrace
    (fst (_afterMessageHandler (created [Byte.xbb])
            (exec vm8 [BeforeMessage (creation [Byte.x60] 0)]
               strict_tracer))) = inr 0%nat /\
  exists trace',
    heap (fst (_afterMessageHandler (created [Byte.xbb])
                 (exec vm8 [BeforeMessage (creation [Byte.x60] 0)]
                    strict_tracer))) !! 0%nat = Some trace' /\
    error trace' = exceptionError (execResult (created [Byte.xbb])) /\
    returnData trace' = returnValue (execResult (created [Byte.xbb])) /\
    isCreateTrace trace' =
      isCreateTrace (Create (mkCreate [Byte.x60] [] 0 [] 0 0 None None)) /\
    (forall c, trace' = Create c ->
               create_deployedContract c =
                 createdAddress (created [Byte.xbb])).
Proof.
  split; [reflexivity|]. split; [reflexivity|]. split; [reflexivity|].
  split; [reflexivity|].
  pose proof (root_populated_by_its_afterMessage
                (exec vm8 [BeforeMessage (creation [Byte.x60] 0)]
                   strict_tracer)
                (created [Byte.xbb]) 0%nat
                (Create (mkCreate [Byte.x60] [] 0 [] 0 0 None None))
                eq_refl eq_refl eq_refl eq_refl) as H.
  split; [exact (proj1 (proj2 H))|exact (proj2 (proj2 (proj2 H)))].
Defined.

Lemma strict_mode_last_error_unset_witness :
  snd (try_of vm8 (Step (mkStep 0))
         (exec vm8 [BeforeMessage (call_to [Byte.x01] 0)]
            (enableTracing (new_VMTracer false)))) =
    inl (JsError msg_step_in_precompile) /\
  next_arg
    (snd (handle vm8 (Step (mkStep 0))
            (exec vm8 [BeforeMessage (call_to [Byte.x01] 0)]
               (enableTracing (new_VMTracer false))))) =
    Some (JsError msg_step_in_precompile).
Proof.
  split; [reflexivity|].
  exact (proj1 (proj2 (proj2 (proj2
    (strict_mode_last_error_unset vm8
       [BeforeMessage (call_to [Byte.x01] 0)])))) (Step (mkStep 0))).
Defined.

